(** * A shallow embedding of the trade-query service (src/main.py)

    The service keeps an in-memory list of trades ([TradeDB]), seeds it at
    import time with ten random trades, and serves two read-only handlers:
    [list_trades] (search, filter, exclude, sort, paginate) and
    [get_trade_by_id].

    Modelling choices, all stated where they are made:
    - Python [str] is [string] (ASCII); [str.lower] lowers the letters A-Z.
    - The [trade_date_time] of a stored trade is a point of one time line
      ([Z]), naive as the seeding's [datetime.now()] produces it.  The
      [start] and [end] bounds of a request are naive or offset-aware
      ([bound]); comparing a stored time with an aware bound raises.
    - [float] prices are rationals ([Q]): only their order is used, and
      there is no NaN.
    - Python exceptions are values of [exn]; a computation that may raise
      returns a [result].
    - The module-level store [trade_db] is threaded explicitly. *)

From Stdlib Require Import List String Ascii ZArith QArith Bool Arith Lia.
From Stdlib Require Import Sorted Permutation OrderedTypeEx.
Import ListNotations.

Close Scope Q_scope.
Open Scope string_scope.
Open Scope list_scope.

(** ** Exceptions and fallible computations *)

(** The exceptions the handlers can meet.  [AttributeError] and [TypeError]
    are the interpreter's runtime faults; [HTTPException] is raised by the
    get-by-id handler; [ValidationError] is what pydantic and FastAPI raise
    for a value that does not have its declared type (no statement of
    main.py raises it). *)
Inductive exn : Type :=
| AttributeError
| TypeError
| ValidationError
| HTTPException (status_code : Z) (detail : string).

Inductive result (A : Type) : Type :=
| Ok (a : A)
| Raise (e : exn).

Arguments Ok {A} a.
Arguments Raise {A} e.

Definition bind {A B : Type} (c : result A) (k : A -> result B) : result B :=
  match c with
  | Ok a => k a
  | Raise e => Raise e
  end.

Notation "x <- c ;; k" := (bind c (fun x => k))
  (at level 61, c at next level, right associativity).

(** [[key(x) for x in xs]]: the calls happen left to right and the first
    exception ends the evaluation. *)
Fixpoint mapM {A B : Type} (f : A -> result B) (xs : list A) : result (list B) :=
  match xs with
  | [] => Ok []
  | x :: rest => y <- f x ;; ys <- mapM f rest ;; Ok (y :: ys)
  end.

(** ** Python strings *)

(** [c.lower()] on one ASCII character. *)
Definition lower_ascii (c : ascii) : ascii :=
  let n := nat_of_ascii c in
  if (65 <=? n)%nat && (n <=? 90)%nat then ascii_of_nat (n + 32) else c.

(** [s.lower()]. *)
Fixpoint lower (s : string) : string :=
  match s with
  | EmptyString => EmptyString
  | String c rest => String (lower_ascii c) (lower rest)
  end.

(** [needle in hay] on two strings: [needle] occurs in [hay] as a
    contiguous substring. *)
Fixpoint str_in (needle hay : string) : bool :=
  String.prefix needle hay ||
  match hay with
  | EmptyString => false
  | String _ rest => str_in needle rest
  end.

(** [field.startswith("-")]. *)
Definition startswith_dash (field : string) : bool :=
  match field with
  | String c _ => Ascii.eqb c "-"%char
  | EmptyString => false
  end.

(** [field.lstrip("-")]: every leading dash is removed. *)
Fixpoint lstrip_dash (field : string) : string :=
  match field with
  | String c rest => if Ascii.eqb c "-"%char then lstrip_dash rest else field
  | EmptyString => EmptyString
  end.

(** Truth value of an [Optional[str]] in [if search:] and [if trader:]:
    [None] and the empty string are false. *)
Definition truthy (o : option string) : bool :=
  match o with
  | Some (String _ _) => true
  | _ => false
  end.

(** [a == b] on two [Optional[str]] values. *)
Definition opt_str_eqb (a b : option string) : bool :=
  match a, b with
  | Some x, Some y => String.eqb x y
  | None, None => true
  | _, _ => false
  end.

(** ** Data model *)

(** Timestamps. *)
Definition datetime : Type := Z.

(** [class TradeDetails(BaseModel)]: three typed fields, no validator and
    no field constraint. *)
Record TradeDetails : Type := {
  buySellIndicator : string;
  price : Q;
  quantity : Z
}.

(** [class Trade(BaseModel)]: [asset_class], [counterparty] and [trade_id]
    are [Optional[str]] with default [None]. *)
Record Trade : Type := {
  asset_class : option string;
  counterparty : option string;
  instrument_id : string;
  instrument_name : string;
  trade_date_time : datetime;
  trade_details : TradeDetails;
  trade_id : option string;
  trader : string
}.

(** A [start] or [end] bound as FastAPI parses it from the request:
    without an offset (naive) or with one (offset-aware). *)
Inductive bound : Type :=
| Naive (d : datetime)
| Aware (d : datetime).

(** [t >= b] for a stored time [t]: the comparison of a naive with an
    offset-aware datetime raises [TypeError]. *)
Definition ge_bound (t : datetime) (b : bound) : result bool :=
  match b with
  | Naive s => Ok (s <=? t)%Z
  | Aware _ => Raise TypeError
  end.

(** [t <= b] for a stored time [t]. *)
Definition le_bound (t : datetime) (b : bound) : result bool :=
  match b with
  | Naive e => Ok (t <=? e)%Z
  | Aware _ => Raise TypeError
  end.

(** [a and b] on two conditions that may raise: [b] is evaluated only when
    [a] is true. *)
Definition and_then (a b : result bool) : result bool :=
  x <- a ;; if x then b else Ok false.

(** The right operand of [trade.asset_class in asset_classes]:
    [filter_trades] documents a list of strings, [list_trades] passes the
    query parameter, a single string. *)
Inductive container : Type :=
| StrContainer (s : string)
| ListContainer (l : list string).

(** [x in c].  On a list it is membership by [==]; on a string it is the
    substring test, which raises [TypeError] when [x] is [None]. *)
Definition py_in (x : option string) (c : container) : result bool :=
  match c with
  | ListContainer l => Ok (existsb (fun y => opt_str_eqb x (Some y)) l)
  | StrContainer s =>
      match x with
      | Some a => Ok (str_in a s)
      | None => Raise TypeError
      end
  end.

(** ** The record store: [class TradeDB] *)

Module TradeDB.

Record t : Type := { trades : list Trade }.

(** [__init__]: [self.trades = []]. *)
Definition init : t := {| trades := [] |}.

(** [add_trade]: [self.trades.append(trade)]. *)
Definition add_trade (self : t) (trade : Trade) : t :=
  {| trades := trades self ++ [trade] |}.

(** [get_trade_by_id]: the first trade whose [trade_id] equals the
    argument, [None] when the loop ends without one. *)
Fixpoint get_trade_by_id_loop (l : list Trade) (id : option string) : option Trade :=
  match l with
  | [] => None
  | trade :: rest =>
      if opt_str_eqb (trade_id trade) id then Some trade
      else get_trade_by_id_loop rest id
  end.

Definition get_trade_by_id (self : t) (id : option string) : option Trade :=
  get_trade_by_id_loop (trades self) id.

(** The condition of [search_trades] for one trade: an [or] chain,
    evaluated left to right and cut short at the first true operand.
    [trade.counterparty.lower()] raises [AttributeError] on [None]. *)
Definition search_match (query_lower : string) (trade : Trade) : result bool :=
  if str_in query_lower (lower (instrument_id trade)) then Ok true
  else if str_in query_lower (lower (instrument_name trade)) then Ok true
  else match counterparty trade with
       | None => Raise AttributeError
       | Some c =>
           if str_in query_lower (lower c) then Ok true
           else Ok (str_in query_lower (lower (trader trade)))
       end.

Fixpoint search_loop (query_lower : string) (l : list Trade) : result (list Trade) :=
  match l with
  | [] => Ok []
  | trade :: rest =>
      b <- search_match query_lower trade ;;
      r <- search_loop query_lower rest ;;
      Ok (if b then trade :: r else r)
  end.

Definition search_trades (self : t) (query : string) : result (list Trade) :=
  let query_lower := lower query in
  search_loop query_lower (trades self).

(** The condition of [filter_trades] for one trade: an [and] chain,
    evaluated left to right and cut short at the first false operand.  The
    asset-class test and the two time tests can raise. *)
Definition filter_match (asset_classes : option container)
    (start end_ : option bound) (min_price max_price : option Q)
    (trade_type : option string) (trade : Trade) : result bool :=
  and_then
    match asset_classes with
    | None => Ok true
    | Some c => py_in (asset_class trade) c
    end
    (and_then
       match start with
       | None => Ok true
       | Some s => ge_bound (trade_date_time trade) s
       end
       (and_then
          match end_ with
          | None => Ok true
          | Some e => le_bound (trade_date_time trade) e
          end
          (Ok (match min_price with
               | None => true
               | Some p => Qle_bool p (price (trade_details trade))
               end
               && match max_price with
                  | None => true
                  | Some p => Qle_bool (price (trade_details trade)) p
                  end
               && match trade_type with
                  | None => true
                  | Some ty => String.eqb (buySellIndicator (trade_details trade)) ty
                  end)))).

Fixpoint filter_loop (asset_classes : option container)
    (start end_ : option bound) (min_price max_price : option Q)
    (trade_type : option string) (l : list Trade) : result (list Trade) :=
  match l with
  | [] => Ok []
  | trade :: rest =>
      b <- filter_match asset_classes start end_ min_price max_price trade_type trade ;;
      r <- filter_loop asset_classes start end_ min_price max_price trade_type rest ;;
      Ok (if b then trade :: r else r)
  end.

Definition filter_trades (self : t) (asset_classes : option container)
    (start end_ : option bound) (min_price max_price : option Q)
    (trade_type : option string) : result (list Trade) :=
  filter_loop asset_classes start end_ min_price max_price trade_type (trades self).

End TradeDB.

(** ** Seeding: [generate_random_trades] and the module-level store *)

(** The outcomes of the calls one loop iteration makes to [random], [Faker],
    [datetime.now] and [uuid.uuid4]: raw entropy for the [random] calls, the
    returned value for the others. *)
Record Draw : Type := {
  coin : nat;
  fake_name : string;
  pick_asset_class : nat;
  pick_counterparty : nat;
  pick_instrument : nat;
  pick_indicator : nat;
  pick_price : nat * nat;
  pick_quantity : nat;
  now : datetime;
  uuid4 : string
}.

(** [random.randint(a, b)]: an integer of [a..b]. *)
Definition randint (a b : Z) (r : nat) : Z :=
  (a + Z.of_nat r mod (b - a + 1))%Z.

(** [random.choice(seq)]: an element of the non-empty [seq]. *)
Definition choice (seq : list string) (r : nat) : string :=
  nth (r mod List.length seq) seq EmptyString.

(** [random.uniform(a, b)]: [a + (b - a) * random()] with [random()] in
    [[0, 1)], here the fraction [n / (n + d + 1)]. *)
Definition uniform (a b : Q) (r : nat * nat) : Q :=
  (a + (b - a) * (Z.of_nat (fst r) # Pos.of_succ_nat (fst r + snd r)))%Q.

Definition asset_classes_pool : list string := [
  "Equities (Stocks)";
  "Fixed Income (Bonds)";
  "Cash and Cash Equivalents";
  "Real Estate Investment Trusts (REITs)";
  "Alternative Investments";
  "Foreign Exchange (Forex)";
  "Cryptocurrencies";
  "Private Equity";
  "Venture Capital";
  "Collectibles and Tangible Assets";
  "Infrastructure Investments";
  "Emerging Markets";
  "Precious Metals";
  "Government Bonds";
  "Corporate Bonds";
  "Convertible Bonds";
  "Mortgage-Backed Securities (MBS)";
  "Energy Commodities";
  "Agricultural Commodities";
  "Industrial Metals";
  "Environmental, Social, and Governance (ESG) Investments"
].

Definition counterparties : list string :=
  ["Counterparty1"; "Counterparty2"; "Counterparty3"; "Counterparty4"; "Counterparty5"].

Definition instruments : list string := [
  "TSLA (Tesla, Inc. stock)";
  "GOOG (Alphabet Inc. stock)";
  "AMZN (Amazon.com, Inc. stock)";
  "AAPL (Apple Inc. stock)";
  "FB (Meta Platforms, Inc. stock)";
  "MSFT (Microsoft Corporation stock)";
  "Amazon (AMZN stock)";
  "Tesla (TSLA stock)";
  "Alibaba Group Holding Ltd (BABA stock)";
  "NASDAQ Composite Index (Equity Index)";
  "Dow Jones Industrial Average (Equity Index)";
  "EURUSD (Euro/US Dollar forex pair)";
  "EURGBP (Euro/British Pound forex pair)";
  "USDJPY (US Dollar/Japanese Yen forex pair)";
  "GBPUSD (British Pound/US Dollar forex pair)";
  "EURJPY (Euro/Japanese Yen forex pair)";
  "AUDUSD (Australian Dollar/US Dollar forex pair)";
  "GOLD (Gold commodity)";
  "SILVER (Silver commodity)";
  "NATGAS (Natural Gas commodity)";
  "WTI Crude Oil (OIL commodity)";
  "Bitcoin (BTC cryptocurrency)";
  "Ethereum (ETH cryptocurrency)";
  "Ripple (XRP cryptocurrency)";
  "Bonds (Fixed Income)";
  "10-Year US Treasury Note (Government Bond)";
  "30-Year US Treasury Bond (Government Bond)";
  "Cryptocurrencies";
  "Stocks (Equities)"
].

Definition buy_sell_indicators : list string := ["BUY"; "SELL"].

(** [TradeDetails(buySellIndicator=..., price=..., quantity=...)]: pydantic
    checks the three types and nothing else, so every well-typed call
    returns the instance. *)
Definition new_TradeDetails (indicator : string) (p : Q) (q : Z) : result TradeDetails :=
  Ok {| buySellIndicator := indicator; price := p; quantity := q |}.

(** One iteration's [Trade(...)]. *)
Definition random_trade (trader_name : string) (d : Draw) : Trade := {|
  asset_class := Some (choice asset_classes_pool (pick_asset_class d));
  counterparty := Some (choice counterparties (pick_counterparty d));
  instrument_id := choice instruments (pick_instrument d);
  instrument_name := "Random Instrument";
  trade_date_time := now d;
  trade_details := {|
    buySellIndicator := choice buy_sell_indicators (pick_indicator d);
    price := uniform 50 5000 (pick_price d);
    quantity := randint 1 1000 (pick_quantity d)
  |};
  trade_id := Some (uuid4 d);
  trader := trader_name
|}.

(** The loop of [generate_random_trades]; [i] counts the iterations done
    and selects the draws of this one. *)
Fixpoint generate_loop (rng : nat -> Draw) (n i : nat) (has_john_smith : bool)
    : list Trade :=
  match n with
  | O => []
  | S n' =>
      let d := rng i in
      if negb has_john_smith && (randint 0 1 (coin d) =? 0)%Z
      then random_trade "John Smith" d :: generate_loop rng n' (S i) true
      else random_trade (fake_name d) d :: generate_loop rng n' (S i) has_john_smith
  end.

Definition generate_random_trades (rng : nat -> Draw) (num_trades : nat) : list Trade :=
  generate_loop rng num_trades 0 false.

Definition num_random_trades : nat := 10.

(** [trade_db] after the module has been imported: a fresh [TradeDB] with
    the generated trades added one by one. *)
Definition trade_db (rng : nat -> Draw) : TradeDB.t :=
  fold_left TradeDB.add_trade (generate_random_trades rng num_random_trades)
            TradeDB.init.

(** ** Sorting and slicing as the interpreter does them *)

(** What [getattr(trade, name)] can return: [None], a string, a naive
    datetime, an integer (a boolean is the integer 0 or 1), the embedded
    [TradeDetails], or an object of a type that has no [<]. *)
Inductive value : Type :=
| VNone
| VStr (s : string)
| VDatetime (d : datetime)
| VInt (n : Z)
| VTradeDetails (d : TradeDetails)
| VObject.

(** [a < b] on two sort keys: defined between two strings (code point
    order), between two datetimes and between two integers, [TypeError]
    otherwise. *)
Definition lt_value (a b : value) : result bool :=
  match a, b with
  | VStr x, VStr y => Ok (String.ltb x y)
  | VDatetime x, VDatetime y => Ok (x <? y)%Z
  | VInt x, VInt y => Ok (x <? y)%Z
  | _, _ => Raise TypeError
  end.

(** Stable insertion of a keyed element in front of an ascending list: it
    passes the elements whose key is smaller than its own, and only those. *)
Fixpoint insert_keyed {A : Type} (x : value * A) (l : list (value * A))
    : result (list (value * A)) :=
  match l with
  | [] => Ok [x]
  | y :: rest =>
      b <- lt_value (fst y) (fst x) ;;
      if b then r <- insert_keyed x rest ;; Ok (y :: r) else Ok (x :: l)
  end.

(** A stable ascending sort that only uses [<] on the keys. *)
Fixpoint stable_sort {A : Type} (l : list (value * A)) : result (list (value * A)) :=
  match l with
  | [] => Ok []
  | x :: rest => s <- stable_sort rest ;; insert_keyed x s
  end.

(** [sorted(xs, key=key, reverse=reverse)]: the keys are computed first,
    one call per element; the sort is stable and compares keys with [<];
    with [reverse] the input is reversed, sorted ascending and reversed
    again, which keeps equal elements in their original order. *)
Definition sorted {A : Type} (xs : list A) (key : A -> result value) (reverse : bool)
    : result (list A) :=
  keys <- mapM key xs ;;
  let keyed := combine keys xs in
  out <- stable_sort (if reverse then rev keyed else keyed) ;;
  Ok (map snd (if reverse then rev out else out)).

(** The sort treats two keys as equal when neither is smaller. *)
Definition same_key (a b : value) : bool :=
  match lt_value a b, lt_value b a with
  | Ok false, Ok false => true
  | _, _ => false
  end.

(** [a] may stand before [b] in ascending order of [key]: both keys are
    defined and [b]'s is not smaller than [a]'s. *)
Definition item_le {A : Type} (key : A -> result value) (a b : A) : Prop :=
  exists ka kb, key a = Ok ka /\ key b = Ok kb /\ lt_value kb ka = Ok false.

(** The key of [x] ties with the key [k]. *)
Definition item_ties {A : Type} (key : A -> result value) (k : value) (x : A) : bool :=
  match key x with
  | Ok kx => same_key k kx
  | Raise _ => false
  end.

(** On keyed elements: [a] may stand before [b], [b]'s key is not
    smaller. *)
Definition keyed_le {A : Type} (a b : value * A) : Prop :=
  lt_value (fst b) (fst a) = Ok false.

(** A slice bound as [list[start:stop]] adjusts it: a negative bound counts
    from the end, and the result is clamped to [0..len]. *)
Definition adjust_index (len i : Z) : Z :=
  (if i <? 0 then Z.max 0 (i + len) else Z.min i len)%Z.

(** [l[start:stop]]. *)
Definition slice {A : Type} (l : list A) (start stop : Z) : list A :=
  let len := Z.of_nat (List.length l) in
  let lo := adjust_index len start in
  let hi := adjust_index len stop in
  firstn (Z.to_nat (hi - lo)) (skipn (Z.to_nat lo) l).

(** ** The query parameters of [list_trades] *)

Module Request.

Record t : Type := {
  asset_classes : option string;
  start : option bound;
  end_ : option bound;
  min_price : option Q;
  max_price : option Q;
  trade_type : option string;
  trader : option string;
  page : Z;
  page_size : Z;
  sort_by : list string;
  search : option string;
  exclude_traders : list string
}.

(** The declared defaults. *)
Definition default : t := {|
  asset_classes := None;
  start := None;
  end_ := None;
  min_price := None;
  max_price := None;
  trade_type := None;
  trader := None;
  page := 1%Z;
  page_size := 10%Z;
  sort_by := ["trade_date_time"];
  search := None;
  exclude_traders := []
|}.

(** The same request with other page parameters, sort keys, trader or
    search text. *)
Definition with_page (q : t) (p ps : Z) : t := {|
  asset_classes := asset_classes q; start := start q; end_ := end_ q;
  min_price := min_price q; max_price := max_price q;
  trade_type := trade_type q; trader := trader q;
  page := p; page_size := ps;
  sort_by := sort_by q; search := search q;
  exclude_traders := exclude_traders q
|}.

Definition with_sort_by (q : t) (keys : list string) : t := {|
  asset_classes := asset_classes q; start := start q; end_ := end_ q;
  min_price := min_price q; max_price := max_price q;
  trade_type := trade_type q; trader := trader q;
  page := page q; page_size := page_size q;
  sort_by := keys; search := search q;
  exclude_traders := exclude_traders q
|}.

Definition with_trader (q : t) (name : option string) : t := {|
  asset_classes := asset_classes q; start := start q; end_ := end_ q;
  min_price := min_price q; max_price := max_price q;
  trade_type := trade_type q; trader := name;
  page := page q; page_size := page_size q;
  sort_by := sort_by q; search := search q;
  exclude_traders := exclude_traders q
|}.

Definition with_search (q : t) (text : option string) : t := {|
  asset_classes := asset_classes q; start := start q; end_ := end_ q;
  min_price := min_price q; max_price := max_price q;
  trade_type := trade_type q; trader := trader q;
  page := page q; page_size := page_size q;
  sort_by := sort_by q; search := text;
  exclude_traders := exclude_traders q
|}.

End Request.

(** ** The handlers *)

(** The names of the fields [class Trade] declares. *)
Definition trade_fields : list string :=
  ["asset_class"; "counterparty"; "instrument_id"; "instrument_name";
   "trade_date_time"; "trade_details"; "trade_id"; "trader"].

Definition is_trade_field (name : string) : bool :=
  existsb (String.eqb name) trade_fields.

Definition opt_value (o : option string) : value :=
  match o with
  | Some s => VStr s
  | None => VNone
  end.

Section Handlers.

(** What [getattr] finds on a [Trade] under a name that is none of its
    eight fields: the attributes the class inherits from pydantic's
    [BaseModel], which is not part of the repository.  [Some v] is the
    attribute's value ([VStr] for a string such as [__module__], [VInt]
    for an integer or a boolean, [VObject] for one that [<] does not
    accept, such as a method or a dict), [None] says there is no such
    attribute. *)
Variable inherited_attr : Trade -> string -> option value.

(** [getattr(x, name)]: a field's value, an inherited attribute's value,
    or [AttributeError]. *)
Definition getattr (x : Trade) (name : string) : result value :=
  if String.eqb name "asset_class" then Ok (opt_value (asset_class x))
  else if String.eqb name "counterparty" then Ok (opt_value (counterparty x))
  else if String.eqb name "instrument_id" then Ok (VStr (instrument_id x))
  else if String.eqb name "instrument_name" then Ok (VStr (instrument_name x))
  else if String.eqb name "trade_date_time" then Ok (VDatetime (trade_date_time x))
  else if String.eqb name "trade_details" then Ok (VTradeDetails (trade_details x))
  else if String.eqb name "trade_id" then Ok (opt_value (trade_id x))
  else if String.eqb name "trader" then Ok (VStr (trader x))
  else match inherited_attr x name with
       | Some v => Ok v
       | None => Raise AttributeError
       end.

(** Lines 249-257: the search call, whose result the next assignment
    overwrites, then the filter call on the whole store. *)
Definition base_set (db : TradeDB.t) (q : Request.t) : result (list Trade) :=
  _searched <- match Request.search q with
               | Some text =>
                   if truthy (Some text) then TradeDB.search_trades db text
                   else Ok (TradeDB.trades db)
               | None => Ok (TradeDB.trades db)
               end ;;
  TradeDB.filter_trades db
    (option_map StrContainer (Request.asset_classes q))
    (Request.start q) (Request.end_ q)
    (Request.min_price q) (Request.max_price q) (Request.trade_type q).

(** Lines 260-264: the excluded traders are dropped, then the optional
    single-trader restriction is applied. *)
Definition restrict (q : Request.t) (filtered_trades : list Trade) : list Trade :=
  let filtered_trades :=
    filter (fun trade => negb (existsb (String.eqb (trader trade)) (Request.exclude_traders q)))
           filtered_trades in
  match Request.trader q with
  | Some name =>
      if truthy (Some name)
      then filter (fun trade => String.eqb (trader trade) name) filtered_trades
      else filtered_trades
  | None => filtered_trades
  end.

(** One round of the sort loop (lines 269-271). *)
Definition sort_step (sorted_trades : list Trade) (field : string) : result (list Trade) :=
  let reverse_sort := startswith_dash field in
  let sort_field := lstrip_dash field in
  sorted sorted_trades (fun x => getattr x sort_field) reverse_sort.

(** Lines 267-271: [for field in sort_by]. *)
Fixpoint sort_trades (sort_by : list string) (sorted_trades : list Trade)
    : result (list Trade) :=
  match sort_by with
  | [] => Ok sorted_trades
  | field :: rest => s <- sort_step sorted_trades field ;; sort_trades rest s
  end.

(** Lines 274-276. *)
Definition paginate {A : Type} (sorted_trades : list A) (page page_size : Z) : list A :=
  let start_idx := ((page - 1) * page_size)%Z in
  let end_idx := (start_idx + page_size)%Z in
  slice sorted_trades start_idx end_idx.

(** The body of [list_trades], run against the store [db]. *)
Definition list_trades (db : TradeDB.t) (q : Request.t) : result (list Trade) :=
  filtered_trades <- base_set db q ;;
  let filtered_trades := restrict q filtered_trades in
  sorted_trades <- sort_trades (Request.sort_by q) filtered_trades ;;
  Ok (paginate sorted_trades (Request.page q) (Request.page_size q)).

(** [a] may stand before [b] in ascending order of the attribute [name]:
    both have it and [b]'s is not smaller than [a]'s. *)
Definition key_le (name : string) (a b : Trade) : Prop :=
  item_le (fun x => getattr x name) a b.

(** The order a sort key asks for: ascending in the named attribute,
    descending when the key starts with a dash. *)
Definition ordered_by (field : string) (a b : Trade) : Prop :=
  if startswith_dash field
  then key_le (lstrip_dash field) b a
  else key_le (lstrip_dash field) a b.

(** [x] ties with [a] under a sort key: the sort treats their attributes
    as equal. *)
Definition ties_with (field : string) (a x : Trade) : bool :=
  match getattr a (lstrip_dash field) with
  | Ok ka => item_ties (fun y => getattr y (lstrip_dash field)) ka x
  | Raise _ => false
  end.

(** The handler up to line 264: the trades handed to the sort loop. *)
Definition select (db : TradeDB.t) (q : Request.t) : result (list Trade) :=
  filtered_trades <- base_set db q ;;
  Ok (restrict q filtered_trades).

(** The handler up to line 271: the sequence handed to the page slice. *)
Definition sorted_stage (db : TradeDB.t) (q : Request.t) : result (list Trade) :=
  filtered_trades <- select db q ;;
  sort_trades (Request.sort_by q) filtered_trades.

(** A [list_trades] request as a step of the service: the response and the
    store it leaves.  No statement of the handler assigns to the store or
    mutates a list it shares with it. *)
Definition serve_list_trades (db : TradeDB.t) (q : Request.t)
    : result (list Trade) * TradeDB.t :=
  (list_trades db q, db).

End Handlers.

(** The get-by-id handler: [if trade:] holds for every model instance, so
    the branch is taken exactly when the lookup did not return [None]. *)
Definition get_trade_by_id (db : TradeDB.t) (id : string) : result Trade :=
  match TradeDB.get_trade_by_id db (Some id) with
  | Some trade => Ok trade
  | None => Raise (HTTPException 404%Z "Trade not found")
  end.

(** The fields whose values are strings or datetimes on every trade, so
    that any two of them compare. *)
Definition total_fields : list string :=
  ["instrument_id"; "instrument_name"; "trade_date_time"; "trader"].

Definition is_total_field (name : string) : bool :=
  existsb (String.eqb name) total_fields.

(** ** Search: the specification's reading and the faulting trades *)

(** Spec: "the query text appears as a substring" of a field. *)
Definition occurs_in (s t : string) : Prop :=
  exists pre post, t = (pre ++ s ++ post)%string.

(** Spec: "case-insensitive substring match": both sides are compared in
    lower case. *)
Definition ci_occurs (text field : string) : Prop :=
  occurs_in (lower text) (lower field).

(** Spec: "a trade matches if the query text appears as a substring in any
    of those four fields (independently, not concatenated)"; an absent
    counterparty holds no text. *)
Definition search_hit (text : string) (t : Trade) : Prop :=
  ci_occurs text (instrument_id t) \/
  ci_occurs text (instrument_name t) \/
  (exists c, counterparty t = Some c /\ ci_occurs text c) \/
  ci_occurs text (trader t).

(** The same test as a boolean. *)
Definition search_hitb (text : string) (t : Trade) : bool :=
  str_in (lower text) (lower (instrument_id t))
  || str_in (lower text) (lower (instrument_name t))
  || match counterparty t with
     | Some c => str_in (lower text) (lower c)
     | None => false
     end
  || str_in (lower text) (lower (trader t)).

(** Spec: the store after search, "store insertion order, ... each Trade
    appears once": the matching trades as they stand in the store. *)
Definition search_spec (db : TradeDB.t) (text : string) : list Trade :=
  filter (search_hitb text) (TradeDB.trades db).

(** The trades on which the condition of [search_trades] raises: the
    counterparty is absent and neither instrument field cut the [or] chain
    short. *)
Definition search_faults (text : string) (t : Trade) : bool :=
  match counterparty t with
  | None =>
      negb (str_in (lower text) (lower (instrument_id t))
            || str_in (lower text) (lower (instrument_name t)))
  | Some _ => false
  end.

(** A text of [n] letters z. *)
Fixpoint zs (n : nat) : string :=
  match n with
  | O => EmptyString
  | S k => String "z"%char (zs k)
  end.

(** Spec: the data-model invariant on trade details. *)
Definition details_valid (d : TradeDetails) : Prop :=
  (quantity d > 0)%Z /\ (0 <= price d)%Q /\
  (buySellIndicator d = "BUY" \/ buySellIndicator d = "SELL").

(** ** Reading the filter and the seeding loop *)

(** The asset-class constraint of [filter_trades] as a proposition: no
    constraint, membership in the list, or occurrence inside the string. *)
Definition asset_class_meets (ac : option container) (t : Trade) : Prop :=
  match ac with
  | None => True
  | Some (ListContainer l) => exists a, asset_class t = Some a /\ In a l
  | Some (StrContainer s) => exists a, asset_class t = Some a /\ occurs_in a s
  end.

(** A stored time lies at or after a [start] bound, at or before an [end]
    bound: the bound is naive and the times are in that order. *)
Definition at_or_after (b : bound) (t : datetime) : Prop :=
  exists s, b = Naive s /\ (s <= t)%Z.

Definition at_or_before (b : bound) (t : datetime) : Prop :=
  exists e, b = Naive e /\ (t <= e)%Z.

(** A trade meets every supplied constraint of [filter_trades]. *)
Definition meets (ac : option container) (start end_ : option bound)
    (min_price max_price : option Q) (trade_type : option string)
    (t : Trade) : Prop :=
  asset_class_meets ac t /\
  (forall s, start = Some s -> at_or_after s (trade_date_time t)) /\
  (forall e, end_ = Some e -> at_or_before e (trade_date_time t)) /\
  (forall p, min_price = Some p -> (p <= price (trade_details t))%Q) /\
  (forall p, max_price = Some p -> (price (trade_details t) <= p)%Q) /\
  (forall ty, trade_type = Some ty -> buySellIndicator (trade_details t) = ty).

(** The asset-class test of [filter_trades] on a trade for which it does
    not raise. *)
Definition asset_class_passesb (ac : option container) (t : Trade) : bool :=
  match ac with
  | None => true
  | Some (ListContainer l) => existsb (fun y => opt_str_eqb (asset_class t) (Some y)) l
  | Some (StrContainer s) =>
      match asset_class t with
      | Some a => str_in a s
      | None => false
      end
  end.

(** The [start] test against a bound that does not raise. *)
Definition start_passesb (start : option bound) (t : Trade) : bool :=
  match start with
  | None => true
  | Some (Naive s) => (s <=? trade_date_time t)%Z
  | Some (Aware _) => false
  end.

(** The [end] test against a bound that does not raise. *)
Definition end_passesb (end_ : option bound) (t : Trade) : bool :=
  match end_ with
  | None => true
  | Some (Naive e) => (trade_date_time t <=? e)%Z
  | Some (Aware _) => false
  end.

(** The condition of [filter_trades] on a trade for which it does not
    raise. *)
Definition passesb (ac : option container) (start end_ : option bound)
    (min_price max_price : option Q) (trade_type : option string)
    (t : Trade) : bool :=
  asset_class_passesb ac t
  && start_passesb start t
  && end_passesb end_ t
  && match min_price with
     | None => true
     | Some p => Qle_bool p (price (trade_details t))
     end
  && match max_price with
     | None => true
     | Some p => Qle_bool (price (trade_details t)) p
     end
  && match trade_type with
     | None => true
     | Some ty => String.eqb (buySellIndicator (trade_details t)) ty
     end.

(** A bound is offset-aware. *)
Definition is_aware (b : option bound) : bool :=
  match b with
  | Some (Aware _) => true
  | _ => false
  end.

(** A bound is absent or naive. *)
Definition not_aware (b : option bound) : Prop := forall d, b <> Some (Aware d).

(** The trades on which the condition of [filter_trades] raises: the
    asset classes are given as one string and the trade has none; or the
    trade passes the asset-class test and [start] is offset-aware; or it
    passes the asset-class and the [start] test and [end] is offset-aware. *)
Definition filter_faults (ac : option container) (start end_ : option bound)
    (t : Trade) : bool :=
  match ac, asset_class t with
  | Some (StrContainer _), None => true
  | _, _ =>
      asset_class_passesb ac t
      && (is_aware start || (start_passesb start t && is_aware end_))
  end.


(** The coin of iteration [i] comes up 0. *)
Definition coin_is_zero (rng : nat -> Draw) (i : nat) : bool :=
  (randint 0 1 (coin (rng i)) =? 0)%Z.

(** The trader name the seeding loop gives the trade of iteration [i]: John
    Smith at the first iteration whose coin comes up 0, Faker's name at every
    other one. *)
Definition trader_name_at (rng : nat -> Draw) (i : nat) : string :=
  if forallb (fun j => negb (coin_is_zero rng j)) (seq 0 i) && coin_is_zero rng i
  then "John Smith"
  else fake_name (rng i).

(** A trade with all three optional fields present. *)
Definition complete (t : Trade) : Prop :=
  asset_class t <> None /\ counterparty t <> None /\ trade_id t <> None.

(** The declared fields other than the embedded [trade_details]. *)
Definition is_sortable_field (name : string) : bool :=
  is_trade_field name && negb (String.eqb name "trade_details").

(** ** Sample data *)

(** A [BaseModel] that hands down the string [__module__], the boolean
    [__custom_root_type__] and three methods. *)
Definition sample_inherited (t : Trade) (name : string) : option value :=
  if String.eqb name "__module__" then Some (VStr "main")
  else if String.eqb name "__custom_root_type__" then Some (VInt 0)
  else if existsb (String.eqb name) ["dict"; "json"; "copy"] then Some VObject
  else None.

(** A source of draws: iteration [i] gets values computed from [i]. *)
Definition sample_rng (i : nat) : Draw := {|
  coin := i;
  fake_name := String (ascii_of_nat (65 + i)) "lex Doe";
  pick_asset_class := 3 * i;
  pick_counterparty := i;
  pick_instrument := 7 * i;
  pick_indicator := i;
  pick_price := (i, 9 - i);
  pick_quantity := 41 * i;
  now := (1700000000 + Z.of_nat (7 * i mod 10))%Z;
  uuid4 := String (ascii_of_nat (97 + i)) "0eebc99-9c0b-4ef8-bb6d-6bb9bd380a11"
|}.

Definition sample_details : TradeDetails :=
  {| buySellIndicator := "BUY"; price := 100; quantity := 5 |}.

(** A trade whose optional [counterparty] is left at its default. *)
Definition orphan_trade : Trade := {|
  asset_class := Some "Private Equity";
  counterparty := None;
  instrument_id := "AAPL (Apple Inc. stock)";
  instrument_name := "Random Instrument";
  trade_date_time := 1700000000%Z;
  trade_details := sample_details;
  trade_id := Some "t-1";
  trader := "John Smith"
|}.

Definition orphan_db : TradeDB.t := TradeDB.add_trade TradeDB.init orphan_trade.

(** A trade with every field present, parameterised by id, trader and time. *)
Definition plain_trade (id who : string) (time : datetime) : Trade := {|
  asset_class := Some "Private Equity";
  counterparty := Some "Counterparty1";
  instrument_id := "GOLD (Gold commodity)";
  instrument_name := "Random Instrument";
  trade_date_time := time;
  trade_details := sample_details;
  trade_id := Some id;
  trader := who
|}.

(** Details that break every data-model invariant, built by the model's
    constructor call. *)
Definition bad_details : TradeDetails :=
  {| buySellIndicator := "HOLD"; price := (-1)%Q; quantity := 0 |}.

Definition bad_trade : Trade := {|
  asset_class := None;
  counterparty := Some "Counterparty1";
  instrument_id := "GOLD (Gold commodity)";
  instrument_name := "Random Instrument";
  trade_date_time := 5%Z;
  trade_details := bad_details;
  trade_id := Some "t-2";
  trader := "Ann"
|}.

(** A request that asks for Ann's trades and excludes Bob and Ann. *)
Definition ann_conflict_request : Request.t := {|
  Request.asset_classes := None;
  Request.start := None;
  Request.end_ := None;
  Request.min_price := None;
  Request.max_price := None;
  Request.trade_type := None;
  Request.trader := Some "Ann";
  Request.page := 1%Z;
  Request.page_size := 10%Z;
  Request.sort_by := ["trade_date_time"];
  Request.search := None;
  Request.exclude_traders := ["Bob"; "Ann"]
|}.

Definition small_db : TradeDB.t :=
  fold_left TradeDB.add_trade
    [plain_trade "a" "Ann" 30%Z; plain_trade "b" "Bob" 10%Z;
     plain_trade "c" "Cid" 20%Z; plain_trade "d" "Ann" 10%Z]
    TradeDB.init.

(** * Properties *)

(** ** Fallible computations *)

Lemma bind_Ok_inv {A B : Type} (c : result A) (k : A -> result B) (b : B) :
  bind c k = Ok b -> exists a, c = Ok a /\ k a = Ok b.
Proof.
  destruct c as [a | e]; simpl; intros H.
  - exists a. split; [reflexivity | exact H].
  - discriminate H.
Qed.

Lemma bind_Raise_inv {A B : Type} (c : result A) (k : A -> result B) (e : exn) :
  bind c k = Raise e -> c = Raise e \/ exists a, c = Ok a /\ k a = Raise e.
Proof.
  destruct c as [a | e']; simpl; intros H.
  - right. exists a. split; [reflexivity | exact H].
  - left. injection H as ->. reflexivity.
Qed.

Ltac invert_bind H :=
  let a := fresh "a" in
  let Ha := fresh "Ha" in
  apply bind_Ok_inv in H; destruct H as (a & Ha & H).

Lemma mapM_length {A B : Type} (f : A -> result B) (xs : list A) (ys : list B) :
  mapM f xs = Ok ys -> List.length ys = List.length xs.
Proof.
  revert ys. induction xs as [| x xs IH]; simpl; intros ys H.
  - injection H as <-. reflexivity.
  - invert_bind H. invert_bind H. injection H as <-.
    simpl. f_equal. apply IH. assumption.
Qed.

(** ** Strings *)

Lemma opt_str_eqb_eq (a b : option string) : opt_str_eqb a b = true <-> a = b.
Proof.
  destruct a as [x |], b as [y |]; simpl; try (split; congruence).
  rewrite String.eqb_eq. split; congruence.
Qed.

Lemma opt_str_eqb_refl (a : option string) : opt_str_eqb a a = true.
Proof. apply opt_str_eqb_eq. reflexivity. Qed.

Lemma lower_length (s : string) : String.length (lower s) = String.length s.
Proof. induction s as [| c s IH]; simpl; congruence. Qed.

Lemma prefix_spec (s t : string) :
  String.prefix s t = true <-> exists post, t = (s ++ post)%string.
Proof.
  revert t. induction s as [| a s IH]; intros t.
  - destruct t; simpl; split; intros _; try reflexivity; eexists; reflexivity.
  - destruct t as [| b t]; simpl.
    + split; [discriminate | intros [post H]; discriminate H].
    + destruct (ascii_dec a b) as [-> | Hne].
      * rewrite IH. split; intros [post H]; exists post.
        -- now subst.
        -- now injection H.
      * split; [discriminate | intros [post H]].
        injection H as H _. congruence.
Qed.

Lemma str_in_unfold (needle hay : string) :
  str_in needle hay =
  String.prefix needle hay ||
  match hay with
  | EmptyString => false
  | String _ rest => str_in needle rest
  end.
Proof. destruct hay; reflexivity. Qed.

(** [str_in] decides occurrence as a contiguous substring. *)
Lemma str_in_spec (needle hay : string) :
  str_in needle hay = true <->
  exists pre post, hay = (pre ++ needle ++ post)%string.
Proof.
  split.
  - induction hay as [| c hay IH]; rewrite str_in_unfold; intros H;
      apply orb_true_iff in H; destruct H as [H | H].
    + apply prefix_spec in H. destruct H as [post H].
      exists EmptyString, post. exact H.
    + discriminate H.
    + apply prefix_spec in H. destruct H as [post H].
      exists EmptyString, post. exact H.
    + destruct (IH H) as (pre & post & ->).
      exists (String c pre), post. reflexivity.
  - intros (pre & post & ->). induction pre as [| c pre IH].
    + rewrite str_in_unfold. apply orb_true_iff. left.
      apply prefix_spec. exists post. reflexivity.
    + simpl. apply orb_true_iff. right. exact IH.
Qed.

Lemma append_length (s t : string) :
  String.length (s ++ t)%string = String.length s + String.length t.
Proof. induction s as [| c s IH]; simpl; congruence. Qed.

Lemma str_in_length (needle hay : string) :
  str_in needle hay = true -> String.length needle <= String.length hay.
Proof.
  intros H. apply str_in_spec in H. destruct H as (pre & post & ->).
  rewrite !append_length. lia.
Qed.

(** ** Lookup by id *)

Lemma get_trade_by_id_loop_None (l : list Trade) (id : option string) :
  TradeDB.get_trade_by_id_loop l id = None <->
  forall t, In t l -> trade_id t <> id.
Proof.
  induction l as [| x l IH]; simpl.
  - split; [intros _ t [] | reflexivity].
  - destruct (opt_str_eqb (trade_id x) id) eqn:E.
    + split; [discriminate |].
      intros H. apply opt_str_eqb_eq in E. exfalso.
      apply (H x); [left; reflexivity | exact E].
    + rewrite IH. split.
      * intros H t [<- | Ht]; [| now apply H].
        intros Heq. apply opt_str_eqb_eq in Heq. congruence.
      * intros H t Ht. apply H. right. exact Ht.
Qed.

Lemma get_trade_by_id_loop_Some (l : list Trade) (id : option string) (t : Trade) :
  TradeDB.get_trade_by_id_loop l id = Some t -> In t l /\ trade_id t = id.
Proof.
  induction l as [| x l IH]; simpl; [discriminate |].
  destruct (opt_str_eqb (trade_id x) id) eqn:E.
  - intros H. injection H as <-. apply opt_str_eqb_eq in E. auto.
  - intros H. destruct (IH H). auto.
Qed.

Lemma get_trade_by_id_loop_unique (l : list Trade) (t : Trade) :
  NoDup (map trade_id l) -> In t l ->
  TradeDB.get_trade_by_id_loop l (trade_id t) = Some t.
Proof.
  induction l as [| x l IH]; simpl; intros Hnd Hin; [contradiction |].
  inversion Hnd as [| ? ? Hnotin Hnd']; subst.
  destruct Hin as [-> | Hin].
  - rewrite opt_str_eqb_refl. reflexivity.
  - destruct (opt_str_eqb (trade_id x) (trade_id t)) eqn:E.
    + apply opt_str_eqb_eq in E. exfalso. apply Hnotin.
      rewrite E. apply in_map. exact Hin.
    + apply IH; assumption.
Qed.

(** C9. When the stored [trade_id]s are pairwise distinct, looking up the id
    of a stored trade returns that very trade, both in [TradeDB] and through
    the handler; the lookup reports absence ([None] in the store method, the
    404 [HTTPException] in the handler) exactly when no stored trade carries
    the id, and otherwise answers with a stored trade of that id. *)
Theorem get_by_id_correct (db : TradeDB.t) :
  NoDup (map trade_id (TradeDB.trades db)) ->
  (forall t, In t (TradeDB.trades db) ->
     TradeDB.get_trade_by_id db (trade_id t) = Some t) /\
  (forall t id, In t (TradeDB.trades db) -> trade_id t = Some id ->
     get_trade_by_id db id = Ok t) /\
  (forall id, TradeDB.get_trade_by_id db id = None <->
     forall t, In t (TradeDB.trades db) -> trade_id t <> id) /\
  (forall id, get_trade_by_id db id = Raise (HTTPException 404 "Trade not found") <->
     forall t, In t (TradeDB.trades db) -> trade_id t <> Some id) /\
  (forall id,
     get_trade_by_id db id = Raise (HTTPException 404 "Trade not found") \/
     exists t, get_trade_by_id db id = Ok t /\
               In t (TradeDB.trades db) /\ trade_id t = Some id).
Proof.
  intros Hnd. unfold get_trade_by_id, TradeDB.get_trade_by_id.
  repeat split.
  - intros t Hin. apply get_trade_by_id_loop_unique; assumption.
  - intros t id Hin Hid.
    rewrite <- Hid, (get_trade_by_id_loop_unique _ _ Hnd Hin). reflexivity.
  - apply get_trade_by_id_loop_None.
  - apply get_trade_by_id_loop_None.
  - destruct (TradeDB.get_trade_by_id_loop (TradeDB.trades db) (Some id)) eqn:E;
      [discriminate | intros _; now apply get_trade_by_id_loop_None].
  - intros H. apply get_trade_by_id_loop_None in H. now rewrite H.
  - intros id.
    destruct (TradeDB.get_trade_by_id_loop (TradeDB.trades db) (Some id)) as [t |] eqn:E.
    + right. exists t. apply get_trade_by_id_loop_Some in E. tauto.
    + left. reflexivity.
Qed.

(** ** Slices and pages *)

Lemma slice_within {A : Type} (l : list A) (a b : Z) :
  (0 <= a <= b)%Z ->
  slice l a b = firstn (Z.to_nat (b - a)) (skipn (Z.to_nat a) l).
Proof.
  intros Hab. unfold slice, adjust_index.
  destruct (Z.ltb_spec a 0) as [Ha | _]; [lia |].
  destruct (Z.ltb_spec b 0) as [Hb | _]; [lia |].
  destruct (Z_le_gt_dec a (Z.of_nat (List.length l))) as [Hle | Hgt].
  - rewrite (Z.min_l a) by lia.
    destruct (Z_le_gt_dec b (Z.of_nat (List.length l))) as [Hble | Hbgt].
    + rewrite (Z.min_l b) by lia. reflexivity.
    + rewrite (Z.min_r b) by lia.
      rewrite !firstn_all2; try reflexivity; rewrite length_skipn; lia.
  - rewrite !Z.min_r by lia. rewrite Z.sub_diag. simpl.
    rewrite skipn_all2 by lia. now rewrite firstn_nil.
Qed.

Lemma slice_empty_window {A : Type} (l : list A) (a b : Z) :
  (adjust_index (Z.of_nat (List.length l)) b
   <= adjust_index (Z.of_nat (List.length l)) a)%Z ->
  slice l a b = [].
Proof.
  intros H. unfold slice.
  replace (Z.to_nat _) with 0 by lia. reflexivity.
Qed.

(** C3 (amended). For [page >= 1] and [page_size >= 1] the page is the
    slice from [(page-1)*page_size] of length [page_size]: its [i]-th
    element is the element at [(page-1)*page_size + i] while [i < page_size],
    and a page that starts at or past the end is empty.  Over ten elements,
    [page_size = 3] gives positions 3, 4, 5 for [page = 2], the single
    position 9 for [page = 4], and nothing for [page = 5]. *)
Theorem paginate_window (A : Type) :
  (forall (xs : list A) (page page_size : Z),
     (1 <= page)%Z -> (1 <= page_size)%Z ->
     paginate xs page page_size =
       firstn (Z.to_nat page_size) (skipn (Z.to_nat ((page - 1) * page_size)) xs) /\
     (forall i,
        nth_error (paginate xs page page_size) i =
        if (i <? Z.to_nat page_size)%nat
        then nth_error xs (Z.to_nat ((page - 1) * page_size) + i)
        else None) /\
     ((Z.of_nat (List.length xs) <= (page - 1) * page_size)%Z ->
      paginate xs page page_size = [])) /\
  (forall x0 x1 x2 x3 x4 x5 x6 x7 x8 x9 : A,
     let xs := [x0; x1; x2; x3; x4; x5; x6; x7; x8; x9] in
     paginate xs 2 3 = [x3; x4; x5] /\
     paginate xs 4 3 = [x9] /\
     paginate xs 5 3 = []).
Proof.
  split.
  - intros xs page page_size Hp Hs.
    assert (E : paginate xs page page_size =
                firstn (Z.to_nat page_size)
                       (skipn (Z.to_nat ((page - 1) * page_size)) xs)).
    { unfold paginate. rewrite slice_within by nia.
      f_equal. f_equal. lia. }
    split; [exact E | split].
    + intros i. rewrite E, nth_error_firstn, nth_error_skipn. reflexivity.
    + intros Hout. rewrite E, skipn_all2 by lia. apply firstn_nil.
  - intros. repeat split; reflexivity.
Qed.

(** The page claimed empty by the specification holds the tenth element. *)
Lemma page_four_of_ten_is_not_empty :
  paginate [0; 1; 2; 3; 4; 5; 6; 7; 8; 9] 4 3 = [9] /\
  paginate [0; 1; 2; 3; 4; 5; 6; 7; 8; 9] 4 3 <> [].
Proof. split; [reflexivity | discriminate]. Qed.

Lemma paginate_window_witness :
  paginate [10; 11; 12; 13; 14; 15; 16] 2 3 =
  firstn 3 (skipn 3 [10; 11; 12; 13; 14; 15; 16]).
Proof.
  exact (proj1 (proj1 (paginate_window nat)
                  [10; 11; 12; 13; 14; 15; 16] 2%Z 3%Z
                  (Zle_bool_imp_le 1 2 eq_refl) (Zle_bool_imp_le 1 3 eq_refl))).
Defined.

(** ** The seeded store *)

Lemma fold_add_trade (l : list Trade) (db : TradeDB.t) :
  TradeDB.trades (fold_left TradeDB.add_trade l db) = TradeDB.trades db ++ l.
Proof.
  revert db. induction l as [| x l IH]; intros db; simpl.
  - now rewrite app_nil_r.
  - rewrite IH. simpl. now rewrite <- app_assoc.
Qed.

Lemma trade_db_trades (rng : nat -> Draw) :
  TradeDB.trades (trade_db rng) = generate_random_trades rng num_random_trades.
Proof. unfold trade_db. now rewrite fold_add_trade. Qed.

(** Every generated trade is one [Trade(...)] call of the loop. *)
Lemma generate_loop_shape (rng : nat -> Draw) (n i : nat) (h : bool) (t : Trade) :
  In t (generate_loop rng n i h) -> exists name d, t = random_trade name d.
Proof.
  revert i h. induction n as [| n IH]; intros i h; cbn [generate_loop In];
    [intros [] |].
  destruct (negb h && _); cbn [In];
    (intros [<- | Hin]; [eauto | eapply IH; eassumption]).
Qed.

Lemma seeded_shape (rng : nat -> Draw) (t : Trade) :
  In t (TradeDB.trades (trade_db rng)) -> exists name d, t = random_trade name d.
Proof. rewrite trade_db_trades. apply generate_loop_shape. Qed.

Lemma generate_loop_length (rng : nat -> Draw) (n i : nat) (h : bool) :
  List.length (generate_loop rng n i h) = n.
Proof.
  revert i h. induction n as [| n IH]; intros i h; cbn [generate_loop];
    [reflexivity |].
  destruct (negb h && _); cbn [List.length]; now rewrite IH.
Qed.

Lemma randint_range (a b : Z) (r : nat) :
  (a <= b)%Z -> (a <= randint a b r <= b)%Z.
Proof.
  intros Hab. unfold randint.
  pose proof (Z.mod_pos_bound (Z.of_nat r) (b - a + 1)). lia.
Qed.

Lemma choice_In (seq : list string) (r : nat) :
  seq <> [] -> In (choice seq r) seq.
Proof.
  intros Hne. unfold choice. apply nth_In.
  apply Nat.mod_upper_bound. destruct seq; [congruence | discriminate].
Qed.

Lemma uniform_range (a b : Q) (r : nat * nat) :
  (a <= b)%Q -> (a <= uniform a b r)%Q /\ (uniform a b r <= b)%Q.
Proof.
  intros Hab. unfold uniform. destruct r as [n d]. cbn [fst snd].
  set (x := (Z.of_nat n # Pos.of_succ_nat (n + d))%Q).
  assert (H0 : (0 <= x)%Q) by (unfold x, Qle; simpl; lia).
  assert (H1 : (x <= 1)%Q).
  { unfold x, Qle. simpl. rewrite Zpos_P_of_succ_nat. lia. }
  assert (Hd : (0 <= b - a)%Q) by (apply (Qplus_le_l _ _ a); ring_simplify; exact Hab).
  split.
  - rewrite <- (Qplus_0_r a) at 1. apply Qplus_le_r.
    apply Qmult_le_0_compat; assumption.
  - setoid_replace b with (a + (b - a) * 1)%Q at 2 by ring.
    apply Qplus_le_r. apply Qmult_le_compat_nonneg.
    + split; [exact Hd | apply Qle_refl].
    + split; assumption.
Qed.

Lemma random_trade_valid (name : string) (d : Draw) :
  let td := trade_details (random_trade name d) in
  (1 <= quantity td <= 1000)%Z /\
  (50 <= price td)%Q /\ (price td <= 5000)%Q /\
  (buySellIndicator td = "BUY" \/ buySellIndicator td = "SELL").
Proof.
  cbn [random_trade trade_details quantity price buySellIndicator].
  split; [apply randint_range; lia |].
  pose proof (uniform_range 50 5000 (pick_price d)) as Hu.
  destruct Hu as [Hlo Hhi]; [unfold Qle; simpl; lia |].
  split; [exact Hlo | split; [exact Hhi |]].
  assert (Hin : In (choice buy_sell_indicators (pick_indicator d)) ["BUY"; "SELL"])
    by (apply choice_In; discriminate).
  destruct Hin as [H | [H | []]]; auto.
Qed.

(** C7 (amended). [TradeDetails] is built without any range or membership
    check and [add_trade] appends whatever trade it is given, so nothing is
    rejected; the invariant holds for the trades the program itself adds:
    every seeded trade has a quantity in 1..1000, a price in [50, 5000]
    and the indicator BUY or SELL. *)
Theorem seeded_details_valid :
  (forall indicator p q,
     new_TradeDetails indicator p q =
     Ok {| buySellIndicator := indicator; price := p; quantity := q |}) /\
  (forall db t, In t (TradeDB.trades (TradeDB.add_trade db t))) /\
  (forall rng t, In t (TradeDB.trades (trade_db rng)) ->
     details_valid (trade_details t) /\
     (1 <= quantity (trade_details t) <= 1000)%Z /\
     (50 <= price (trade_details t))%Q /\ (price (trade_details t) <= 5000)%Q).
Proof.
  split; [reflexivity | split].
  - intros db t. simpl. apply in_or_app. right. left. reflexivity.
  - intros rng t Hin.
    destruct (seeded_shape rng t Hin) as (name & d & ->).
    destruct (random_trade_valid name d) as (Hq & Hlo & Hhi & Hind).
    unfold details_valid. repeat split; try assumption; try lia.
    apply Qle_trans with (y := 50%Q); [unfold Qle; simpl; lia | exact Hlo].
Qed.

(** Details with quantity 0, price -1 and indicator HOLD are constructed
    and stored. *)
Lemma invalid_details_are_stored :
  new_TradeDetails "HOLD" (-1)%Q 0 = Ok bad_details /\
  In bad_trade (TradeDB.trades (TradeDB.add_trade TradeDB.init bad_trade)) /\
  ~ details_valid (trade_details bad_trade).
Proof.
  split; [reflexivity | split].
  - left. reflexivity.
  - intros (Hq & _). simpl in Hq. lia.
Qed.

Lemma seeded_details_valid_witness :
  details_valid (trade_details (random_trade "John Smith" (sample_rng 0))).
Proof.
  exact (proj1 (proj2 (proj2 seeded_details_valid) sample_rng
                  (random_trade "John Smith" (sample_rng 0))
                  (or_introl eq_refl))).
Defined.

(** ** Search *)

Lemma search_hitb_spec (text : string) (t : Trade) :
  search_hitb text t = true <-> search_hit text t.
Proof.
  unfold search_hitb, search_hit, ci_occurs, occurs_in.
  rewrite !orb_true_iff, <- !str_in_spec.
  destruct (counterparty t) as [c |].
  - assert (Hc : (exists c', Some c = Some c' /\
                    exists pre post, lower c' = (pre ++ lower text ++ post)%string) <->
                 str_in (lower text) (lower c) = true).
    { rewrite str_in_spec. split.
      - intros (c' & Heq & H). injection Heq as <-. exact H.
      - intros H. exists c. auto. }
    rewrite Hc. tauto.
  - assert (Hc : (exists c', @None string = Some c' /\
                    exists pre post, lower c' = (pre ++ lower text ++ post)%string) <->
                 False).
    { split; [intros (c' & Heq & _); discriminate Heq | tauto]. }
    rewrite Hc. intuition discriminate.
Qed.

Lemma search_match_eq (text : string) (t : Trade) :
  TradeDB.search_match (lower text) t =
  if search_faults text t then Raise AttributeError else Ok (search_hitb text t).
Proof.
  unfold TradeDB.search_match, search_faults, search_hitb.
  destruct (str_in (lower text) (lower (instrument_id t))); simpl.
  - now destruct (counterparty t).
  - destruct (str_in (lower text) (lower (instrument_name t))); simpl.
    + now destruct (counterparty t).
    + destruct (counterparty t) as [c |]; [| reflexivity].
      now destruct (str_in (lower text) (lower c)).
Qed.

(** What [search_trades] does on any store: it raises as soon as the store
    holds a trade on which the condition raises, and otherwise returns the
    matching trades in store order. *)
Lemma search_trades_eq (db : TradeDB.t) (text : string) :
  TradeDB.search_trades db text =
  if existsb (search_faults text) (TradeDB.trades db)
  then Raise AttributeError
  else Ok (search_spec db text).
Proof.
  unfold TradeDB.search_trades, search_spec.
  induction (TradeDB.trades db) as [| t l IH]; [reflexivity |].
  cbn [TradeDB.search_loop existsb filter].
  rewrite search_match_eq, IH.
  destruct (search_faults text t); [reflexivity |].
  cbn [bind orb].
  destruct (existsb (search_faults text) l); [reflexivity |].
  now destruct (search_hitb text t).
Qed.

Lemma present_never_faults (text : string) (l : list Trade) :
  Forall (fun t => counterparty t <> None) l ->
  existsb (search_faults text) l = false.
Proof.
  induction 1 as [| t l Ht _ IH]; [reflexivity |].
  cbn [existsb]. rewrite IH, orb_false_r.
  unfold search_faults. destruct (counterparty t); congruence.
Qed.

(** On a store whose trades all carry a counterparty, [search_trades]
    returns exactly the trades the text hits, in store order and as often
    as the store holds them. *)
Lemma search_trades_correct (db : TradeDB.t) (text : string) :
  Forall (fun t => counterparty t <> None) (TradeDB.trades db) ->
  TradeDB.search_trades db text = Ok (search_spec db text) /\
  (forall t, In t (search_spec db text) <->
             In t (TradeDB.trades db) /\ search_hit text t) /\
  (NoDup (TradeDB.trades db) -> NoDup (search_spec db text)).
Proof.
  intros Hp. rewrite search_trades_eq, present_never_faults by exact Hp.
  split; [reflexivity | split].
  - intros t. unfold search_spec. rewrite filter_In, search_hitb_spec. tauto.
  - intros Hnd. unfold search_spec. now apply NoDup_filter.
Qed.

(** C8 (the code at the failing input). The store holds one trade without
    a counterparty and the text zzz occurs in none of its fields: the
    specified answer is the empty sequence, [search_trades] raises
    [AttributeError]. *)
Theorem search_raises_where_no_field_matches :
  TradeDB.search_trades orphan_db "zzz" = Raise AttributeError /\
  search_spec orphan_db "zzz" = [] /\
  ~ search_hit "zzz" orphan_trade.
Proof.
  split; [reflexivity | split; [reflexivity |]].
  rewrite <- search_hitb_spec. discriminate.
Qed.

Lemma zs_lower (n : nat) : lower (zs n) = zs n.
Proof. induction n as [| n IH]; simpl; [reflexivity | now rewrite IH]. Qed.

Lemma zs_length (n : nat) : String.length (zs n) = n.
Proof. induction n as [| n IH]; simpl; congruence. Qed.

Lemma long_text_misses (n : nat) (field : string) :
  String.length field < n -> str_in (lower (zs n)) (lower field) = false.
Proof.
  intros Hlt. destruct (str_in (lower (zs n)) (lower field)) eqn:E; [| reflexivity].
  apply str_in_length in E.
  rewrite zs_lower, zs_length, lower_length in E. lia.
Qed.

(** C10 (amended). [search_trades] raises, and then [AttributeError],
    exactly when the store holds a trade without counterparty whose
    [instrument_id] and [instrument_name] both miss the text; a text that
    hits one of them cuts the condition short before the counterparty is
    touched.  Such a text always exists for a trade without counterparty, so
    [search_trades] returns for every text exactly when every stored trade
    has a counterparty. *)
Theorem search_partial_on_absent_counterparty (db : TradeDB.t) :
  (forall text,
     TradeDB.search_trades db text = Raise AttributeError <->
     exists t, In t (TradeDB.trades db) /\ counterparty t = None /\
               ~ ci_occurs text (instrument_id t) /\
               ~ ci_occurs text (instrument_name t)) /\
  (forall text,
     TradeDB.search_trades db text = Raise AttributeError \/
     TradeDB.search_trades db text = Ok (search_spec db text)) /\
  ((forall text, exists r, TradeDB.search_trades db text = Ok r) <->
   Forall (fun t => counterparty t <> None) (TradeDB.trades db)).
Proof.
  assert (Hfault : forall text t,
            search_faults text t = true <->
            counterparty t = None /\
            ~ ci_occurs text (instrument_id t) /\
            ~ ci_occurs text (instrument_name t)).
  { intros text t. unfold search_faults, ci_occurs, occurs_in.
    rewrite <- !str_in_spec.
    destruct (counterparty t); [split; [discriminate | intros [H _]; discriminate H] |].
    rewrite negb_true_iff, orb_false_iff.
    destruct (str_in (lower text) (lower (instrument_id t)));
      destruct (str_in (lower text) (lower (instrument_name t)));
      intuition congruence. }
  split; [| split].
  - intros text. rewrite search_trades_eq.
    destruct (existsb (search_faults text) (TradeDB.trades db)) eqn:E.
    + apply existsb_exists in E. destruct E as (t & Hin & Hf).
      split; [intros _ | reflexivity].
      exists t. split; [exact Hin | now apply Hfault].
    + split; [discriminate |].
      intros (t & Hin & Hf). apply Hfault in Hf.
      assert (existsb (search_faults text) (TradeDB.trades db) = true)
        by (apply existsb_exists; eauto).
      congruence.
  - intros text. rewrite search_trades_eq.
    destruct (existsb _ _); auto.
  - split.
    + intros Htotal. apply Forall_forall. intros t Hin Hnone.
      set (n := S (Nat.max (String.length (instrument_id t))
                           (String.length (instrument_name t)))).
      destruct (Htotal (zs n)) as [r Hr].
      rewrite search_trades_eq in Hr.
      assert (E : existsb (search_faults (zs n)) (TradeDB.trades db) = true).
      { apply existsb_exists. exists t. split; [exact Hin |].
        unfold search_faults. rewrite Hnone.
        rewrite !long_text_misses by (unfold n; lia). reflexivity. }
      rewrite E in Hr. discriminate Hr.
    + intros Hp text. exists (search_spec db text).
      now apply search_trades_correct.
Qed.

(** A store with a trade without counterparty on which search returns: the
    text occurs in the trade's [instrument_id]. *)
Lemma search_returns_despite_absent_counterparty :
  In orphan_trade (TradeDB.trades orphan_db) /\
  counterparty orphan_trade = None /\
  TradeDB.search_trades orphan_db "aapl" = Ok [orphan_trade].
Proof. split; [left; reflexivity | split; reflexivity]. Qed.

Lemma search_partial_witness :
  exists r, TradeDB.search_trades small_db "gold" = Ok r.
Proof.
  refine (proj2 (proj2 (proj2 (search_partial_on_absent_counterparty small_db))) _ "gold").
  repeat constructor; discriminate.
Defined.

(** ** The base set *)

Lemma filter_loop_no_params (l : list Trade) :
  TradeDB.filter_loop None None None None None None l = Ok l.
Proof.
  induction l as [| t l IH]; [reflexivity |].
  cbn [TradeDB.filter_loop]. rewrite IH. reflexivity.
Qed.

Lemma seeded_counterparty (rng : nat -> Draw) :
  Forall (fun t => counterparty t <> None) (TradeDB.trades (trade_db rng)).
Proof.
  apply Forall_forall. intros t Hin.
  destruct (seeded_shape rng t Hin) as (name & d & ->). discriminate.
Qed.

(** On a store where search cannot fault, the base set is the filter call's
    result whatever the search text. *)
Lemma base_set_is_filter (db : TradeDB.t) (q : Request.t) :
  Forall (fun t => counterparty t <> None) (TradeDB.trades db) ->
  base_set db q =
  TradeDB.filter_trades db
    (option_map StrContainer (Request.asset_classes q))
    (Request.start q) (Request.end_ q)
    (Request.min_price q) (Request.max_price q) (Request.trade_type q).
Proof.
  intros Hp. unfold base_set.
  destruct (Request.search q) as [text |]; [| reflexivity].
  destruct (truthy (Some text)); [| reflexivity].
  destruct (search_trades_correct db text Hp) as [-> _]. reflexivity.
Qed.

(** C1. In the service, whose store is the seeded [trade_db], the base set
    of every request is the result of [filter_trades] on the whole store
    with the request's filter parameters, whether or not a search text is
    supplied; with no filter parameter it is the full store in insertion
    order; and replacing the search text by any other, or by none, leaves
    the response of [list_trades] unchanged. *)
Theorem filter_overrides_search (rng : nat -> Draw) (q : Request.t) :
  base_set (trade_db rng) q =
    TradeDB.filter_trades (trade_db rng)
      (option_map StrContainer (Request.asset_classes q))
      (Request.start q) (Request.end_ q)
      (Request.min_price q) (Request.max_price q) (Request.trade_type q) /\
  (Request.asset_classes q = None /\ Request.start q = None /\
   Request.end_ q = None /\ Request.min_price q = None /\
   Request.max_price q = None /\ Request.trade_type q = None ->
   base_set (trade_db rng) q = Ok (TradeDB.trades (trade_db rng))) /\
  (forall inherited_attr text,
     list_trades inherited_attr (trade_db rng) (Request.with_search q text) =
     list_trades inherited_attr (trade_db rng) q).
Proof.
  pose proof (seeded_counterparty rng) as Hp.
  split; [now apply base_set_is_filter | split].
  - intros (Ha & Hs & He & Hmin & Hmax & Hty).
    rewrite base_set_is_filter by exact Hp.
    rewrite Ha, Hs, He, Hmin, Hmax, Hty. apply filter_loop_no_params.
  - intros inherited_attr text. unfold list_trades.
    rewrite !base_set_is_filter by exact Hp. reflexivity.
Qed.

Lemma filter_overrides_search_witness :
  base_set (trade_db sample_rng)
           (Request.with_search Request.default (Some "tesla")) =
  Ok (TradeDB.trades (trade_db sample_rng)).
Proof.
  refine (proj1 (proj2 (filter_overrides_search sample_rng
                          (Request.with_search Request.default (Some "tesla")))) _).
  repeat split.
Defined.

(** ** The order on sort keys *)

Lemma string_ltb_lt (a b : string) :
  String.ltb a b = true <-> String_as_OT.lt a b.
Proof.
  rewrite <- String_as_OT.cmp_lt. unfold String.ltb, String_as_OT.cmp.
  destruct (String.compare a b); split; congruence.
Qed.

Lemma string_ltb_trans (a b c : string) :
  String.ltb a b = true -> String.ltb b c = true -> String.ltb a c = true.
Proof. rewrite !string_ltb_lt. apply String_as_OT.lt_trans. Qed.

Lemma string_ltb_asym (a b : string) :
  String.ltb a b = true -> String.ltb b a = false.
Proof.
  unfold String.ltb. rewrite (String.compare_antisym a b).
  destruct (String.compare b a); simpl; congruence.
Qed.

Lemma string_ltb_total (a b : string) :
  String.ltb a b = false -> String.ltb b a = false -> a = b.
Proof.
  unfold String.ltb. rewrite (String.compare_antisym b a).
  destruct (String.compare a b) eqn:E; simpl; try congruence.
  intros _ _. now apply String.compare_eq_iff.
Qed.

Lemma lt_value_asym (a b : value) :
  lt_value a b = Ok true -> lt_value b a = Ok false.
Proof.
  destruct a, b; simpl; try discriminate; intros H; injection H as H; f_equal.
  - now apply string_ltb_asym.
  - lia.
  - lia.
Qed.

Lemma lt_value_trans (a b c : value) :
  lt_value a b = Ok true -> lt_value b c = Ok true -> lt_value a c = Ok true.
Proof.
  destruct a, b, c; simpl; try discriminate;
    intros H1 H2; injection H1 as H1; injection H2 as H2; f_equal.
  - eapply string_ltb_trans; eassumption.
  - lia.
  - lia.
Qed.

Lemma lt_value_total (a b : value) :
  lt_value a b = Ok false -> lt_value b a = Ok false -> a = b.
Proof.
  destruct a, b; simpl; try discriminate;
    intros H1 H2; injection H1 as H1; injection H2 as H2; f_equal.
  - now apply string_ltb_total.
  - lia.
  - lia.
Qed.

Lemma lt_value_comparable (a b c : value) (x y : bool) :
  lt_value a b = Ok x -> lt_value b c = Ok y -> exists z, lt_value a c = Ok z.
Proof. destruct a, b, c; simpl; try discriminate; eauto. Qed.

Lemma lt_value_sym_defined (a b : value) (x : bool) :
  lt_value a b = Ok x -> exists y, lt_value b a = Ok y.
Proof. destruct a, b; simpl; try discriminate; eauto. Qed.

(** "Not smaller" is transitive. *)
Lemma not_lt_value_trans (a b c : value) :
  lt_value b a = Ok false -> lt_value c b = Ok false -> lt_value c a = Ok false.
Proof.
  intros Hba Hcb.
  destruct (lt_value_comparable c b a false false Hcb Hba) as [[|] Hca];
    [| exact Hca].
  destruct (lt_value_sym_defined b a false Hba) as [[|] Hab].
  - rewrite (lt_value_trans c a b Hca Hab) in Hcb. discriminate Hcb.
  - rewrite (lt_value_total a b Hab Hba) in Hca. congruence.
Qed.

Lemma lt_value_fault (a b : value) (e : exn) :
  lt_value a b = Raise e -> e = TypeError.
Proof. destruct a, b; simpl; congruence. Qed.

Lemma same_key_eq (a b : value) : same_key a b = true -> a = b.
Proof.
  unfold same_key.
  destruct (lt_value a b) as [[|] |] eqn:E1; try discriminate.
  destruct (lt_value b a) as [[|] |] eqn:E2; try discriminate.
  intros _. now apply lt_value_total.
Qed.

(** ** The stable sort on keyed lists *)

Section StableSort.

Context {A : Type}.

Lemma keyed_le_trans (a b c : value * A) : keyed_le a b -> keyed_le b c -> keyed_le a c.
Proof. unfold keyed_le. apply not_lt_value_trans. Qed.

Lemma insert_keyed_perm (x : value * A) (l r : list (value * A)) :
  insert_keyed x l = Ok r -> Permutation (x :: l) r.
Proof.
  revert r. induction l as [| y l IH]; simpl; intros r H.
  - injection H as <-. apply Permutation_refl.
  - invert_bind H. destruct a.
    + invert_bind H. injection H as <-.
      eapply perm_trans; [apply perm_swap |]. apply perm_skip. now apply IH.
    + injection H as <-. apply Permutation_refl.
Qed.

Lemma stable_sort_perm (l r : list (value * A)) :
  stable_sort l = Ok r -> Permutation l r.
Proof.
  revert r. induction l as [| x l IH]; simpl; intros r H.
  - injection H as <-. constructor.
  - invert_bind H. apply insert_keyed_perm in H.
    eapply perm_trans; [apply perm_skip, IH; eassumption | exact H].
Qed.

Lemma insert_keyed_sorted (x : value * A) (l r : list (value * A)) :
  StronglySorted keyed_le l -> insert_keyed x l = Ok r ->
  StronglySorted keyed_le r.
Proof.
  revert r. induction l as [| y l IH]; simpl; intros r Hs H.
  - injection H as <-. repeat constructor.
  - apply StronglySorted_inv in Hs. destruct Hs as [Hs Hy].
    invert_bind H. destruct a.
    + invert_bind H. injection H as <-.
      constructor; [now apply IH |].
      apply (Permutation_Forall (insert_keyed_perm _ _ _ Ha0)).
      constructor; [| exact Hy].
      unfold keyed_le. now apply lt_value_asym.
    + injection H as <-.
      constructor; [now constructor |].
      constructor; [exact Ha |].
      eapply Forall_impl; [| exact Hy].
      intros z Hz. eapply keyed_le_trans; [exact Ha | exact Hz].
Qed.

Lemma stable_sort_sorted (l r : list (value * A)) :
  stable_sort l = Ok r -> StronglySorted keyed_le r.
Proof.
  revert r. induction l as [| x l IH]; simpl; intros r H.
  - injection H as <-. constructor.
  - invert_bind H. eapply insert_keyed_sorted; [| exact H]. now apply IH.
Qed.

(** Stability: the elements whose key ties with a given key keep their
    relative order. *)
Lemma insert_keyed_stable (k : value) (x : value * A) (l r : list (value * A)) :
  insert_keyed x l = Ok r ->
  filter (fun e => same_key k (fst e)) r =
  filter (fun e => same_key k (fst e)) (x :: l).
Proof.
  revert r. induction l as [| y l IH]; simpl; intros r H.
  - injection H as <-. reflexivity.
  - invert_bind H. destruct a.
    + invert_bind H. injection H as <-. simpl.
      rewrite (IH _ Ha0). simpl.
      destruct (same_key k (fst x)) eqn:Ex; [| reflexivity].
      apply same_key_eq in Ex. subst k.
      assert (Ey : same_key (fst x) (fst y) = false).
      { unfold same_key. rewrite (lt_value_asym _ _ Ha), Ha. reflexivity. }
      rewrite Ey. reflexivity.
    + injection H as <-. reflexivity.
Qed.

Lemma stable_sort_stable (k : value) (l r : list (value * A)) :
  stable_sort l = Ok r ->
  filter (fun e => same_key k (fst e)) r = filter (fun e => same_key k (fst e)) l.
Proof.
  revert r. induction l as [| x l IH]; simpl; intros r H.
  - injection H as <-. reflexivity.
  - invert_bind H. rewrite (insert_keyed_stable k _ _ _ H). simpl.
    now rewrite (IH _ Ha).
Qed.

(** The sort returns when any two keys compare. *)
Lemma insert_keyed_defined (x : value * A) (l : list (value * A)) :
  Forall (fun y => exists b, lt_value (fst y) (fst x) = Ok b) l ->
  exists r, insert_keyed x l = Ok r.
Proof.
  induction 1 as [| y l [b Hb] _ [r IH]]; simpl; [eauto |].
  rewrite Hb. simpl. destruct b; [rewrite IH; simpl |]; eauto.
Qed.

Lemma stable_sort_defined (l : list (value * A)) :
  (forall x y, In x l -> In y l -> exists b, lt_value (fst x) (fst y) = Ok b) ->
  exists r, stable_sort l = Ok r.
Proof.
  induction l as [| x l IH]; simpl; intros Hc; [eauto |].
  destruct IH as [s Hs]; [intros; apply Hc; auto |].
  rewrite Hs. simpl. apply insert_keyed_defined.
  apply Forall_forall. intros y Hy. apply Hc; [right | left; reflexivity].
  eapply Permutation_in; [apply Permutation_sym, stable_sort_perm |]; eassumption.
Qed.

Lemma insert_keyed_fault (x : value * A) (l : list (value * A)) (e : exn) :
  insert_keyed x l = Raise e -> e = TypeError.
Proof.
  induction l as [| y l IH]; simpl; [discriminate |].
  intros H. apply bind_Raise_inv in H. destruct H as [H | (b & Hb & H)].
  - eapply lt_value_fault; eassumption.
  - destruct b; [| discriminate].
    apply bind_Raise_inv in H. destruct H as [H | (r & _ & H)]; [auto | discriminate].
Qed.

Lemma stable_sort_fault (l : list (value * A)) (e : exn) :
  stable_sort l = Raise e -> e = TypeError.
Proof.
  induction l as [| x l IH]; simpl; [discriminate |].
  intros H. apply bind_Raise_inv in H. destruct H as [H | (s & _ & H)]; [auto |].
  eapply insert_keyed_fault; eassumption.
Qed.

End StableSort.

(** ** [sorted] *)

Lemma StronglySorted_app {A : Type} (R : A -> A -> Prop) (l1 l2 : list A) :
  StronglySorted R l1 -> StronglySorted R l2 ->
  (forall x y, In x l1 -> In y l2 -> R x y) ->
  StronglySorted R (l1 ++ l2).
Proof.
  induction 1 as [| a l1 Hs IH Ha]; simpl; intros H2 Hc; [exact H2 |].
  constructor.
  - apply IH; [exact H2 | intros; apply Hc; auto].
  - apply Forall_app. split; [exact Ha |].
    apply Forall_forall. intros y Hy. apply Hc; auto.
Qed.

Lemma StronglySorted_rev {A : Type} (R : A -> A -> Prop) (l : list A) :
  StronglySorted R l -> StronglySorted (fun a b => R b a) (rev l).
Proof.
  induction 1 as [| a l Hs IH Ha]; simpl; [constructor |].
  apply StronglySorted_app; [exact IH | repeat constructor |].
  intros x y Hx [<- | []]. apply in_rev in Hx.
  rewrite Forall_forall in Ha. now apply Ha.
Qed.

Lemma StronglySorted_map_snd {A B : Type} (R : B * A -> B * A -> Prop)
    (T : A -> A -> Prop) (l : list (B * A)) :
  (forall e e', In e l -> In e' l -> R e e' -> T (snd e) (snd e')) ->
  StronglySorted R l -> StronglySorted T (map snd l).
Proof.
  intros Himp Hs. induction Hs as [| a l Hs IH Ha]; simpl; [constructor |].
  constructor.
  - apply IH. intros; apply Himp; auto using in_cons.
  - apply Forall_map. rewrite Forall_forall in *.
    intros e He. apply Himp; auto using in_cons, in_eq.
Qed.

Lemma StronglySorted_skipn {A : Type} (R : A -> A -> Prop) (n : nat) (l : list A) :
  StronglySorted R l -> StronglySorted R (skipn n l).
Proof.
  revert l. induction n as [| n IH]; intros l Hs; [exact Hs |].
  destruct l as [| a l]; [constructor |].
  simpl. apply IH. now apply StronglySorted_inv in Hs.
Qed.

Lemma StronglySorted_firstn {A : Type} (R : A -> A -> Prop) (n : nat) (l : list A) :
  StronglySorted R l -> StronglySorted R (firstn n l).
Proof.
  revert l. induction n as [| n IH]; intros l Hs; [constructor |].
  destruct l as [| a l]; [constructor |].
  apply StronglySorted_inv in Hs. destruct Hs as [Hs Ha].
  simpl. constructor; [now apply IH |].
  rewrite Forall_forall in *. intros x Hx. apply Ha.
  rewrite <- (firstn_skipn n l). apply in_or_app. now left.
Qed.

Lemma StronglySorted_slice {A : Type} (R : A -> A -> Prop) (l : list A) (a b : Z) :
  StronglySorted R l -> StronglySorted R (slice l a b).
Proof.
  intros Hs. unfold slice. now apply StronglySorted_firstn, StronglySorted_skipn.
Qed.

Section SortedFacts.

Context {A : Type} (key : A -> result value).

Lemma mapM_combine (xs : list A) (ks : list value) :
  mapM key xs = Ok ks ->
  Forall (fun e => key (snd e) = Ok (fst e)) (combine ks xs) /\
  map snd (combine ks xs) = xs.
Proof.
  revert ks. induction xs as [| x xs IH]; simpl; intros ks H.
  - injection H as <-. split; [constructor | reflexivity].
  - invert_bind H. invert_bind H. injection H as <-.
    destruct (IH _ Ha0) as [Hf Hm]. simpl. split.
    + constructor; [exact Ha | exact Hf].
    + now rewrite Hm.
Qed.

Lemma mapM_defined (xs : list A) :
  (forall x, In x xs -> exists k, key x = Ok k) -> exists ks, mapM key xs = Ok ks.
Proof.
  induction xs as [| x xs IH]; simpl; intros H; [eauto |].
  destruct (H x) as [k Hk]; [auto |].
  destruct IH as [ks Hks]; [auto |].
  rewrite Hk, Hks. simpl. eauto.
Qed.

Lemma mapM_fault (xs : list A) (e : exn) :
  mapM key xs = Raise e -> exists x, In x xs /\ key x = Raise e.
Proof.
  induction xs as [| x xs IH]; simpl; [discriminate |].
  intros H. apply bind_Raise_inv in H. destruct H as [H | (k & _ & H)].
  - exists x. auto.
  - apply bind_Raise_inv in H. destruct H as [H | (ks & _ & H)]; [| discriminate].
    destruct (IH H) as (y & Hy & Hk). exists y. auto.
Qed.

Lemma sorted_inv (xs ys : list A) (reverse : bool) :
  sorted xs key reverse = Ok ys ->
  exists ks out,
    mapM key xs = Ok ks /\
    stable_sort (if reverse then rev (combine ks xs) else combine ks xs) = Ok out /\
    ys = map snd (if reverse then rev out else out).
Proof.
  unfold sorted. intros H. invert_bind H. invert_bind H. injection H as <-.
  eauto.
Qed.

Lemma sorted_nil (reverse : bool) : sorted [] key reverse = Ok [].
Proof. unfold sorted. simpl. now destruct reverse. Qed.

Lemma sorted_perm (xs ys : list A) (reverse : bool) :
  sorted xs key reverse = Ok ys -> Permutation xs ys.
Proof.
  intros H. apply sorted_inv in H. destruct H as (ks & out & Hk & Hs & ->).
  apply mapM_combine in Hk. destruct Hk as [_ Hm].
  apply stable_sort_perm in Hs. rewrite <- Hm at 1.
  apply Permutation_map.
  destruct reverse; [| exact Hs].
  eapply perm_trans; [apply Permutation_rev |].
  eapply perm_trans; [exact Hs | apply Permutation_rev].
Qed.

Lemma sorted_keyed (xs : list A) (ks : list value) (out : list (value * A))
    (reverse : bool) :
  mapM key xs = Ok ks ->
  stable_sort (if reverse then rev (combine ks xs) else combine ks xs) = Ok out ->
  Forall (fun e => key (snd e) = Ok (fst e)) out.
Proof.
  intros Hk Hs. apply mapM_combine in Hk. destruct Hk as [Hf _].
  apply stable_sort_perm in Hs.
  apply (Permutation_Forall Hs).
  destruct reverse; [| exact Hf].
  apply (Permutation_Forall (Permutation_rev _)). exact Hf.
Qed.

(** The result is in ascending key order, or in descending key order when
    [reverse] is set. *)
Lemma sorted_order (xs ys : list A) (reverse : bool) :
  sorted xs key reverse = Ok ys ->
  StronglySorted (fun a b => if reverse then item_le key b a else item_le key a b) ys.
Proof.
  intros H. apply sorted_inv in H. destruct H as (ks & out & Hk & Hs & ->).
  pose proof (sorted_keyed _ _ _ _ Hk Hs) as Hf.
  apply stable_sort_sorted in Hs. rewrite Forall_forall in Hf.
  destruct reverse.
  - apply StronglySorted_map_snd with (R := fun a b => keyed_le b a).
    + intros e e' He He' Hle. apply in_rev in He, He'.
      exists (fst e'), (fst e). auto.
    + now apply StronglySorted_rev.
  - apply StronglySorted_map_snd with (R := keyed_le); [| exact Hs].
    intros e e' He He' Hle. exists (fst e), (fst e'). auto.
Qed.

(** The result keeps the input order among the elements whose keys tie. *)
Lemma sorted_stable (xs ys : list A) (reverse : bool) (k : value) :
  sorted xs key reverse = Ok ys ->
  filter (item_ties key k) ys = filter (item_ties key k) xs.
Proof.
  intros H. apply sorted_inv in H. destruct H as (ks & out & Hk & Hs & ->).
  pose proof (sorted_keyed _ _ _ _ Hk Hs) as Hf.
  pose proof (mapM_combine _ _ Hk) as [Hfc Hm].
  apply (stable_sort_stable k) in Hs.
  assert (Hswap : forall l : list (value * A),
            Forall (fun e => key (snd e) = Ok (fst e)) l ->
            filter (item_ties key k) (map snd l) =
            map snd (filter (fun e => same_key k (fst e)) l)).
  { intros l Hl. induction Hl as [| e l He _ IH]; [reflexivity |].
    simpl. unfold item_ties at 1. rewrite He.
    destruct (same_key k (fst e)); simpl; now rewrite IH. }
  rewrite <- Hm at 1. rewrite (Hswap _ Hfc).
  destruct reverse.
  - rewrite Hswap by (apply (Permutation_Forall (Permutation_rev _)); exact Hf).
    rewrite filter_rev, Hs, filter_rev, rev_involutive. reflexivity.
  - rewrite (Hswap _ Hf), Hs. reflexivity.
Qed.

(** [sorted] returns when every key is defined and any two keys compare. *)
Lemma sorted_defined (xs : list A) (reverse : bool) :
  (forall x y, In x xs -> In y xs ->
     exists kx ky b, key x = Ok kx /\ key y = Ok ky /\ lt_value kx ky = Ok b) ->
  exists ys, sorted xs key reverse = Ok ys.
Proof.
  intros Hc. unfold sorted.
  destruct (mapM_defined xs) as [ks Hk].
  { intros x Hx. destruct (Hc x x Hx Hx) as (k & _ & _ & Hk & _). eauto. }
  rewrite Hk. simpl.
  pose proof (mapM_combine _ _ Hk) as [Hf Hm].
  destruct (stable_sort_defined (if reverse then rev (combine ks xs) else combine ks xs))
    as [out Hout].
  { assert (Hin : forall e, In e (if reverse then rev (combine ks xs) else combine ks xs) ->
                            In e (combine ks xs))
      by (intros e He; destruct reverse; [now apply in_rev |]; exact He).
    intros e e' He He'. apply Hin in He, He'.
    rewrite Forall_forall in Hf.
    destruct (Hc (snd e) (snd e')) as (kx & ky & b & Hx & Hy & Hb).
    - eapply in_combine_r. rewrite <- surjective_pairing. exact He.
    - eapply in_combine_r. rewrite <- surjective_pairing. exact He'.
    - rewrite (Hf _ He) in Hx. rewrite (Hf _ He') in Hy.
      injection Hx as <-. injection Hy as <-. eauto. }
  rewrite Hout. simpl. eauto.
Qed.

(** A failing key call on the first element ends [sorted]. *)
Lemma sorted_key_fault (x : A) (xs : list A) (reverse : bool) (e : exn) :
  key x = Raise e -> sorted (x :: xs) key reverse = Raise e.
Proof. intros H. unfold sorted. simpl. rewrite H. reflexivity. Qed.

Lemma sorted_fault (xs : list A) (reverse : bool) (e : exn) :
  sorted xs key reverse = Raise e ->
  (exists x, In x xs /\ key x = Raise e) \/ e = TypeError.
Proof.
  unfold sorted. intros H.
  apply bind_Raise_inv in H. destruct H as [H | (ks & _ & H)].
  - left. now apply mapM_fault.
  - right. apply bind_Raise_inv in H. destruct H as [H | (out & _ & H)].
    + eapply stable_sort_fault; eassumption.
    + discriminate H.
Qed.

End SortedFacts.

(** ** The sort loop of [list_trades] *)

Lemma StronglySorted_impl {A : Type} (R R' : A -> A -> Prop) (l : list A) :
  (forall a b, R a b -> R' a b) -> StronglySorted R l -> StronglySorted R' l.
Proof.
  intros Himp. induction 1 as [| a l Hs IH Ha]; constructor; [exact IH |].
  eapply Forall_impl; [| exact Ha]. auto.
Qed.

Lemma filter_none {A : Type} (f : A -> bool) (l : list A) :
  (forall x, f x = false) -> filter f l = [].
Proof.
  intros Hf. induction l as [| x l IH]; [reflexivity |].
  simpl. now rewrite Hf.
Qed.

Lemma is_total_field_cases (name : string) :
  is_total_field name = true ->
  name = "instrument_id" \/ name = "instrument_name" \/
  name = "trade_date_time" \/ name = "trader".
Proof.
  unfold is_total_field, total_fields. cbn [existsb].
  rewrite !orb_true_iff, !String.eqb_eq. intuition discriminate.
Qed.

Section HandlerFacts.

Variable inherited_attr : Trade -> string -> option value.

Lemma getattr_unknown (t : Trade) (name : string) :
  is_trade_field name = false -> inherited_attr t name = None ->
  getattr inherited_attr t name = Raise AttributeError.
Proof.
  unfold is_trade_field, trade_fields. cbn [existsb].
  rewrite !orb_false_iff. intros (E1 & E2 & E3 & E4 & E5 & E6 & E7 & E8 & _) Hi.
  unfold getattr. now rewrite E1, E2, E3, E4, E5, E6, E7, E8, Hi.
Qed.

Lemma getattr_fault (t : Trade) (name : string) (e : exn) :
  getattr inherited_attr t name = Raise e -> e = AttributeError.
Proof.
  unfold getattr.
  repeat match goal with
         | |- context [if ?c then _ else _] => destruct c; [discriminate |]
         end.
  destruct (inherited_attr t name); congruence.
Qed.

(** The attributes named by [total_fields] are defined on every trade and
    any two values of one of them compare. *)
Lemma getattr_total (name : string) (a b : Trade) :
  is_total_field name = true ->
  exists ka kb c,
    getattr inherited_attr a name = Ok ka /\
    getattr inherited_attr b name = Ok kb /\ lt_value ka kb = Ok c.
Proof.
  intros H. apply is_total_field_cases in H.
  destruct H as [-> | [-> | [-> | ->]]];
    do 3 eexists; repeat split; reflexivity.
Qed.

Lemma sort_step_nil (field : string) : sort_step inherited_attr [] field = Ok [].
Proof. apply sorted_nil. Qed.

(** One round of the loop: a stable sort by the key of this round. *)
Lemma sort_step_spec (prev res : list Trade) (field : string) :
  sort_step inherited_attr prev field = Ok res ->
  Permutation prev res /\
  StronglySorted (ordered_by inherited_attr field) res /\
  (forall a, filter (ties_with inherited_attr field a) res =
             filter (ties_with inherited_attr field a) prev).
Proof.
  unfold sort_step. intros H. split; [| split].
  - eapply sorted_perm; eassumption.
  - apply sorted_order in H. unfold ordered_by, key_le.
    destruct (startswith_dash field); exact H.
  - intros a. unfold ties_with.
    destruct (getattr inherited_attr a (lstrip_dash field)) as [ka | e].
    + exact (sorted_stable _ _ _ _ ka H).
    + rewrite !filter_none by reflexivity. reflexivity.
Qed.

Lemma sort_step_defined (prev : list Trade) (field : string) :
  is_total_field (lstrip_dash field) = true ->
  exists res, sort_step inherited_attr prev field = Ok res.
Proof.
  intros H. apply sorted_defined. intros x y _ _. now apply getattr_total.
Qed.

Lemma sort_step_fault (prev : list Trade) (field : string) (e : exn) :
  sort_step inherited_attr prev field = Raise e ->
  e = AttributeError \/ e = TypeError.
Proof.
  intros H. apply sorted_fault in H. destruct H as [(x & _ & H) | H]; [left | now right].
  eapply getattr_fault; eassumption.
Qed.

(** An attribute that no trade has stops the round at its first key call. *)
Lemma sort_step_unknown (t : Trade) (prev : list Trade) (field : string) :
  is_trade_field (lstrip_dash field) = false ->
  inherited_attr t (lstrip_dash field) = None ->
  sort_step inherited_attr (t :: prev) field = Raise AttributeError.
Proof.
  intros Hf Hi. apply sorted_key_fault. now apply getattr_unknown.
Qed.

Lemma sort_trades_app (k1 k2 : list string) (xs : list Trade) :
  sort_trades inherited_attr (k1 ++ k2) xs =
  (prev <- sort_trades inherited_attr k1 xs ;; sort_trades inherited_attr k2 prev).
Proof.
  revert xs. induction k1 as [| f k1 IH]; intros xs; [reflexivity |].
  cbn [app sort_trades].
  destruct (sort_step inherited_attr xs f) as [s | e]; [| reflexivity].
  cbn [bind]. apply IH.
Qed.

Lemma sort_trades_last (keys : list string) (k : string) (xs : list Trade) :
  sort_trades inherited_attr (keys ++ [k]) xs =
  (prev <- sort_trades inherited_attr keys xs ;; sort_step inherited_attr prev k).
Proof.
  rewrite sort_trades_app.
  destruct (sort_trades inherited_attr keys xs) as [prev | e]; [| reflexivity].
  cbn [bind sort_trades]. now destruct (sort_step inherited_attr prev k).
Qed.

Lemma sort_trades_nil (keys : list string) : sort_trades inherited_attr keys [] = Ok [].
Proof.
  induction keys as [| f keys IH]; [reflexivity |].
  cbn [sort_trades]. rewrite sort_step_nil. exact IH.
Qed.

Lemma sort_trades_perm (keys : list string) (xs res : list Trade) :
  sort_trades inherited_attr keys xs = Ok res -> Permutation xs res.
Proof.
  revert xs. induction keys as [| f keys IH]; intros xs H.
  - injection H as <-. apply Permutation_refl.
  - cbn [sort_trades] in H. invert_bind H.
    eapply perm_trans; [eapply sort_step_spec; eassumption | now apply IH].
Qed.

Lemma sort_trades_defined (keys : list string) (xs : list Trade) :
  Forall (fun f => is_total_field (lstrip_dash f) = true) keys ->
  exists res, sort_trades inherited_attr keys xs = Ok res.
Proof.
  intros H. revert xs. induction H as [| f keys Hf _ IH]; intros xs; [simpl; eauto |].
  cbn [sort_trades].
  destruct (sort_step_defined xs f Hf) as [s ->]. cbn [bind]. apply IH.
Qed.

Lemma sort_trades_fault (keys : list string) (xs : list Trade) (e : exn) :
  sort_trades inherited_attr keys xs = Raise e ->
  e = AttributeError \/ e = TypeError.
Proof.
  revert xs. induction keys as [| f keys IH]; intros xs H; [discriminate |].
  cbn [sort_trades] in H. apply bind_Raise_inv in H.
  destruct H as [H | (s & _ & H)]; [eapply sort_step_fault | eapply IH]; eassumption.
Qed.

(** A sort key that names no attribute makes the loop fail on every
    non-empty input. *)
Lemma sort_trades_unknown (keys : list string) (name : string) (xs : list Trade) :
  In name keys ->
  is_trade_field (lstrip_dash name) = false ->
  (forall t, inherited_attr t (lstrip_dash name) = None) ->
  xs <> [] ->
  exists e, sort_trades inherited_attr keys xs = Raise e /\
            (e = AttributeError \/ e = TypeError).
Proof.
  intros Hin Hf Hi. revert xs.
  induction keys as [| f keys IH]; intros xs Hne; [contradiction |].
  cbn [sort_trades].
  destruct (sort_step inherited_attr xs f) as [s | e] eqn:E.
  - cbn [bind]. destruct Hin as [-> | Hin].
    + destruct xs as [| t xs]; [congruence |].
      rewrite sort_step_unknown in E by auto. discriminate E.
    + apply IH; [exact Hin |].
      apply sort_step_spec in E. destruct E as [Hp _].
      intros ->. apply Permutation_sym, Permutation_nil in Hp. contradiction.
  - exists e. split; [reflexivity | eapply sort_step_fault; eassumption].
Qed.

(** ** The whole handler *)

Lemma filter_match_eq ac s e mn mx ty (t : Trade) :
  TradeDB.filter_match ac s e mn mx ty t =
  if filter_faults ac s e t then Raise TypeError
  else Ok (passesb ac s e mn mx ty t).
Proof.
  unfold TradeDB.filter_match, filter_faults, passesb, and_then.
  assert (Hac : match ac with
                | None => Ok true
                | Some c => py_in (asset_class t) c
                end =
                match ac, asset_class t with
                | Some (StrContainer _), None => Raise TypeError
                | _, _ => Ok (asset_class_passesb ac t)
                end).
  { unfold asset_class_passesb. destruct ac as [[str | l] |]; cbn [py_in];
      try reflexivity. now destruct (asset_class t). }
  rewrite Hac.
  assert (Hrest :
    (x <- Ok (asset_class_passesb ac t) ;;
     (if x
      then
       x0 <- match s with
             | Some s0 => ge_bound (trade_date_time t) s0
             | None => Ok true
             end ;;
       (if x0
        then
         x1 <- match e with
               | Some e0 => le_bound (trade_date_time t) e0
               | None => Ok true
               end ;;
         (if x1
          then
           Ok (match mn with
               | Some p => Qle_bool p (price (trade_details t))
               | None => true
               end
               && match mx with
                  | Some p => Qle_bool (price (trade_details t)) p
                  | None => true
                  end
               && match ty with
                  | Some ty0 => String.eqb (buySellIndicator (trade_details t)) ty0
                  | None => true
                  end)
          else Ok false)
        else Ok false)
      else Ok false)) =
    if asset_class_passesb ac t
       && (is_aware s || (start_passesb s t && is_aware e))
    then Raise TypeError
    else Ok (asset_class_passesb ac t && start_passesb s t && end_passesb e t
             && match mn with
                | Some p => Qle_bool p (price (trade_details t))
                | None => true
                end
             && match mx with
                | Some p => Qle_bool (price (trade_details t)) p
                | None => true
                end
             && match ty with
                | Some ty0 => String.eqb (buySellIndicator (trade_details t)) ty0
                | None => true
                end)).
  { cbn [bind]. destruct (asset_class_passesb ac t); [| reflexivity].
    unfold start_passesb, end_passesb, is_aware, ge_bound, le_bound.
    destruct s as [[s0 | s0] |]; cbn [bind andb orb]; try reflexivity.
    - destruct (s0 <=? trade_date_time t)%Z; cbn [andb]; [| reflexivity].
      destruct e as [[e0 | e0] |]; cbn [bind andb]; try reflexivity.
      now destruct (trade_date_time t <=? e0)%Z.
    - destruct e as [[e0 | e0] |]; cbn [bind andb]; try reflexivity.
      now destruct (trade_date_time t <=? e0)%Z. }
  destruct ac as [[str | l] |]; try exact Hrest.
  destruct (asset_class t); [exact Hrest | reflexivity].
Qed.

(** What [filter_trades] does on any store. *)
Lemma filter_loop_eq ac s e mn mx ty (l : list Trade) :
  TradeDB.filter_loop ac s e mn mx ty l =
  if existsb (filter_faults ac s e) l then Raise TypeError
  else Ok (filter (passesb ac s e mn mx ty) l).
Proof.
  induction l as [| t l IH]; [reflexivity |].
  cbn [TradeDB.filter_loop existsb filter].
  rewrite filter_match_eq, IH.
  destruct (filter_faults ac s e t); [reflexivity |].
  cbn [bind orb].
  destruct (existsb (filter_faults ac s e) l); [reflexivity |].
  now destruct (passesb ac s e mn mx ty t).
Qed.

Lemma filter_loop_fault ac s e mn mx ty (l : list Trade) (x : exn) :
  TradeDB.filter_loop ac s e mn mx ty l = Raise x -> x = TypeError.
Proof.
  rewrite filter_loop_eq. destruct (existsb _ _); congruence.
Qed.

Lemma base_set_fault (db : TradeDB.t) (q : Request.t) (e : exn) :
  base_set db q = Raise e -> e = AttributeError \/ e = TypeError.
Proof.
  unfold base_set. intros H.
  apply bind_Raise_inv in H. destruct H as [H | (r & _ & H)].
  - left. destruct (Request.search q) as [text |]; [| discriminate].
    destruct (truthy (Some text)); [| discriminate].
    rewrite search_trades_eq in H.
    destruct (existsb _ _); congruence.
  - right. eapply filter_loop_fault. exact H.
Qed.

Lemma list_trades_stages (db : TradeDB.t) (q : Request.t) :
  list_trades inherited_attr db q =
  (sorted_trades <- sorted_stage inherited_attr db q ;;
   Ok (paginate sorted_trades (Request.page q) (Request.page_size q))).
Proof.
  unfold list_trades, sorted_stage, select.
  now destruct (base_set db q).
Qed.

Lemma sorted_stage_select (db : TradeDB.t) (q : Request.t) (sel : list Trade) :
  select db q = Ok sel ->
  sorted_stage inherited_attr db q = sort_trades inherited_attr (Request.sort_by q) sel.
Proof. unfold sorted_stage. now intros ->. Qed.

(** The handler only ever fails with one of the interpreter's two runtime
    faults. *)
Lemma list_trades_fault (db : TradeDB.t) (q : Request.t) (e : exn) :
  list_trades inherited_attr db q = Raise e -> e = AttributeError \/ e = TypeError.
Proof.
  unfold list_trades. intros H.
  apply bind_Raise_inv in H. destruct H as [H | (f & _ & H)].
  - eapply base_set_fault; eassumption.
  - apply bind_Raise_inv in H. destruct H as [H | (s & _ & H)]; [| discriminate].
    eapply sort_trades_fault; eassumption.
Qed.

End HandlerFacts.

(** On the seeded store neither the search nor the filter can fault when
    the time bounds are absent or naive: every seeded trade has a
    counterparty and an asset class. *)
Lemma filter_loop_defined ac s e mn mx ty (l : list Trade) :
  Forall (fun t => asset_class t <> None) l ->
  not_aware s -> not_aware e ->
  exists r, TradeDB.filter_loop ac s e mn mx ty l = Ok r.
Proof.
  intros Hl Hs He. rewrite filter_loop_eq.
  assert (Hf : existsb (filter_faults ac s e) l = false).
  { induction Hl as [| t l Ht _ IH]; [reflexivity |].
    cbn [existsb]. rewrite IH, orb_false_r.
    assert (is_aware s = false)
      by (destruct s as [[d | d] |]; try reflexivity; now destruct (Hs d)).
    assert (is_aware e = false)
      by (destruct e as [[d | d] |]; try reflexivity; now destruct (He d)).
    unfold filter_faults.
    replace (is_aware s) with false. replace (is_aware e) with false.
    rewrite andb_false_r, andb_false_r.
    destruct ac as [[str | lst] |]; try reflexivity.
    destruct (asset_class t); [reflexivity | congruence]. }
  rewrite Hf. eauto.
Qed.

Lemma seeded_select_defined (rng : nat -> Draw) (q : Request.t) :
  not_aware (Request.start q) -> not_aware (Request.end_ q) ->
  exists sel, select (trade_db rng) q = Ok sel.
Proof.
  intros Hs He.
  unfold select. rewrite base_set_is_filter by apply seeded_counterparty.
  destruct (filter_loop_defined
              (option_map StrContainer (Request.asset_classes q))
              (Request.start q) (Request.end_ q)
              (Request.min_price q) (Request.max_price q) (Request.trade_type q)
              (TradeDB.trades (trade_db rng))) as [r Hr]; try assumption.
  - apply Forall_forall. intros t Hin.
    destruct (seeded_shape rng t Hin) as (name & d & ->). discriminate.
  - unfold TradeDB.filter_trades. rewrite Hr. cbn. eauto.
Qed.

(** ** Sorting and paging in [list_trades] *)

Lemma paginate_nil {A : Type} (page page_size : Z) :
  paginate (@nil A) page page_size = [].
Proof. unfold paginate, slice. now rewrite skipn_nil, firstn_nil. Qed.

Section PipelineClaims.

Variable inherited_attr : Trade -> string -> option value.

(** C5. The sort keys are applied one after the other in list order, each
    round sorting the output of the round before: the sequence handed to
    pagination is the result of sorting, by the last key, what the earlier
    keys produced.  Hence it is ordered by the last key (descending when
    that key starts with a dash), it is a rearrangement of the earlier
    rounds' output, and trades that tie on the last key stand in the order
    the earlier rounds left them in.  The loop returns whenever every key
    names a field that is a string or a datetime on every trade. *)
Theorem sort_keys_in_sequence (db : TradeDB.t) (q : Request.t)
    (keys : list string) (k : string) (sel : list Trade) :
  Request.sort_by q = keys ++ [k] ->
  select db q = Ok sel ->
  sorted_stage inherited_attr db q =
    (prev <- sort_trades inherited_attr keys sel ;; sort_step inherited_attr prev k) /\
  (forall f rest xs,
     sort_trades inherited_attr (f :: rest) xs =
     (s <- sort_step inherited_attr xs f ;; sort_trades inherited_attr rest s)) /\
  (forall res,
     sorted_stage inherited_attr db q = Ok res ->
     list_trades inherited_attr db q =
       Ok (paginate res (Request.page q) (Request.page_size q)) /\
     exists prev,
       sort_trades inherited_attr keys sel = Ok prev /\
       Permutation prev res /\
       StronglySorted (ordered_by inherited_attr k) res /\
       (forall a, filter (ties_with inherited_attr k a) res =
                  filter (ties_with inherited_attr k a) prev)) /\
  (Forall (fun f => is_total_field (lstrip_dash f) = true) (keys ++ [k]) ->
   exists res, sorted_stage inherited_attr db q = Ok res).
Proof.
  intros Hkeys Hsel.
  assert (E : sorted_stage inherited_attr db q =
              (prev <- sort_trades inherited_attr keys sel ;;
               sort_step inherited_attr prev k)).
  { rewrite (sorted_stage_select _ _ _ _ Hsel), Hkeys. apply sort_trades_last. }
  split; [exact E | split; [reflexivity | split]].
  - intros res Hres. split.
    + rewrite list_trades_stages, Hres. reflexivity.
    + rewrite E in Hres. invert_bind Hres. exists a.
      split; [exact Ha |]. now apply sort_step_spec.
  - intros Ht. rewrite (sorted_stage_select _ _ _ _ Hsel), Hkeys.
    now apply sort_trades_defined.
Qed.

(** C6 (amended). [price] is no attribute of a [Trade] (it belongs to
    [trade_details]), so with [sort_by = ["-price"]] the request returns only
    when no trade reaches the sort, with an empty page, and fails with
    [AttributeError] otherwise.  Descending order is obtained on an
    attribute of the trade itself: with [sort_by = ["-trade_date_time"]] the
    request returns whenever search and filter do, which is the case on the
    seeded store whenever [start] and [end] are absent or naive, and the
    returned page is in non-increasing [trade_date_time] order. *)
Theorem sort_by_price_desc (q : Request.t) :
  (forall db sel,
     select db q = Ok sel ->
     Request.sort_by q = ["-price"] ->
     (forall t, inherited_attr t "price" = None) ->
     (sel = [] -> list_trades inherited_attr db q = Ok []) /\
     (sel <> [] -> list_trades inherited_attr db q = Raise AttributeError)) /\
  (forall db sel,
     select db q = Ok sel ->
     Request.sort_by q = ["-trade_date_time"] ->
     exists res,
       sorted_stage inherited_attr db q = Ok res /\
       Permutation sel res /\
       StronglySorted (fun a b => (trade_date_time b <= trade_date_time a)%Z) res /\
       list_trades inherited_attr db q =
         Ok (paginate res (Request.page q) (Request.page_size q)) /\
       StronglySorted (fun a b => (trade_date_time b <= trade_date_time a)%Z)
         (paginate res (Request.page q) (Request.page_size q))) /\
  (forall rng,
     Request.sort_by q = ["-trade_date_time"] ->
     not_aware (Request.start q) -> not_aware (Request.end_ q) ->
     exists returned,
       list_trades inherited_attr (trade_db rng) q = Ok returned /\
       StronglySorted (fun a b => (trade_date_time b <= trade_date_time a)%Z)
         returned).
Proof.
  assert (Hdesc : forall db sel,
     select db q = Ok sel ->
     Request.sort_by q = ["-trade_date_time"] ->
     exists res,
       sorted_stage inherited_attr db q = Ok res /\
       Permutation sel res /\
       StronglySorted (fun a b => (trade_date_time b <= trade_date_time a)%Z) res /\
       list_trades inherited_attr db q =
         Ok (paginate res (Request.page q) (Request.page_size q)) /\
       StronglySorted (fun a b => (trade_date_time b <= trade_date_time a)%Z)
         (paginate res (Request.page q) (Request.page_size q))).
  { intros db sel Hsel Hkeys.
    destruct (sort_trades_defined inherited_attr ["-trade_date_time"] sel)
      as [res Hres]; [repeat constructor |].
    exists res.
    assert (Hperm : Permutation sel res) by (eapply sort_trades_perm; eassumption).
    assert (Hsorted : StronglySorted
                        (fun a b => (trade_date_time b <= trade_date_time a)%Z) res).
    { cbn [sort_trades] in Hres. invert_bind Hres. injection Hres as <-.
      apply sort_step_spec in Ha. destruct Ha as (_ & Hs & _).
      eapply StronglySorted_impl; [| exact Hs].
      intros x y (kx & ky & Hx & Hy & Hlt).
      cbn in Hx, Hy. injection Hx as <-. injection Hy as <-.
      cbn in Hlt. injection Hlt as Hlt. lia. }
    rewrite list_trades_stages, (sorted_stage_select _ _ _ _ Hsel), Hkeys, Hres.
    repeat split; try assumption.
    now apply StronglySorted_slice. }
  split; [| split; [exact Hdesc |]].
  - intros db sel Hsel Hkeys Hinh.
    rewrite list_trades_stages, (sorted_stage_select _ _ _ _ Hsel), Hkeys.
    split.
    + intros ->. cbn. now rewrite paginate_nil.
    + intros Hne. destruct sel as [| t sel]; [congruence |].
      cbn [sort_trades]. rewrite sort_step_unknown; [reflexivity | reflexivity |].
      apply Hinh.
  - intros rng Hkeys Hs He.
    destruct (seeded_select_defined rng q Hs He) as [sel Hsel].
    destruct (Hdesc _ _ Hsel Hkeys) as (res & _ & _ & _ & Hlist & Hpage).
    eauto.
Qed.

(** C2 (amended). A sort key that names no attribute of a trade is never
    answered with a [ValidationError].  When no trade reaches the sort the
    key is skipped and the empty page is returned; otherwise the request
    fails with one of the interpreter's runtime faults, the attribute fault
    when the unknown name is the first sort key.  The store is the same
    after the request. *)
Theorem unknown_sort_field_faults (db : TradeDB.t) (q : Request.t) (name : string) :
  In name (Request.sort_by q) ->
  is_trade_field (lstrip_dash name) = false ->
  (forall t, inherited_attr t (lstrip_dash name) = None) ->
  list_trades inherited_attr db q <> Raise ValidationError /\
  snd (serve_list_trades inherited_attr db q) = db /\
  (forall sel, select db q = Ok sel ->
     (sel = [] -> list_trades inherited_attr db q = Ok []) /\
     (sel <> [] ->
      list_trades inherited_attr db q = Raise AttributeError \/
      list_trades inherited_attr db q = Raise TypeError) /\
     (sel <> [] -> (exists rest, Request.sort_by q = name :: rest) ->
      list_trades inherited_attr db q = Raise AttributeError)).
Proof.
  intros Hin Hf Hi. split; [| split; [reflexivity |]].
  - intros H. apply list_trades_fault in H. destruct H; discriminate.
  - intros sel Hsel.
    rewrite list_trades_stages, (sorted_stage_select _ _ _ _ Hsel).
    split; [| split].
    + intros ->. rewrite sort_trades_nil. cbn. now rewrite paginate_nil.
    + intros Hne.
      destruct (sort_trades_unknown inherited_attr _ _ _ Hin Hf Hi Hne)
        as (e & -> & [-> | ->]); auto.
    + intros Hne [rest Hkeys]. rewrite Hkeys.
      destruct sel as [| t sel]; [congruence |].
      cbn [sort_trades]. now rewrite sort_step_unknown by auto.
Qed.

(** C4 (amended). [page] and [page_size] are never checked: a request with
    [page < 1] or [page_size < 1] is not answered with a [ValidationError].
    It fails exactly when the stages before pagination fail, which do not
    read the two parameters, and otherwise returns the slice
    [(page-1)*page_size : (page-1)*page_size + page_size] of the sorted
    sequence as the interpreter cuts it, a negative bound counting from the
    end; the page is empty when [page = 0] or [page_size = 0]. *)
Theorem page_bounds_unchecked (db : TradeDB.t) (q : Request.t) :
  (Request.page q < 1 \/ Request.page_size q < 1)%Z ->
  list_trades inherited_attr db q <> Raise ValidationError /\
  (forall e, list_trades inherited_attr db q = Raise e <->
             sorted_stage inherited_attr db q = Raise e) /\
  (forall p ps,
     sorted_stage inherited_attr db (Request.with_page q p ps) =
     sorted_stage inherited_attr db q) /\
  (forall xs, sorted_stage inherited_attr db q = Ok xs ->
     list_trades inherited_attr db q =
       Ok (slice xs ((Request.page q - 1) * Request.page_size q)
                    ((Request.page q - 1) * Request.page_size q + Request.page_size q)) /\
     (Request.page q = 0%Z \/ Request.page_size q = 0%Z ->
      list_trades inherited_attr db q = Ok [])).
Proof.
  intros _. split; [| split; [| split; [reflexivity |]]].
  - intros H. apply list_trades_fault in H. destruct H; discriminate.
  - intros e. rewrite list_trades_stages.
    destruct (sorted_stage inherited_attr db q); cbn; split; congruence.
  - intros xs Hxs. rewrite list_trades_stages, Hxs. cbn [bind].
    split; [reflexivity |].
    intros Hz. f_equal. unfold paginate. apply slice_empty_window.
    set (a := ((Request.page q - 1) * Request.page_size q)%Z).
    set (len := Z.of_nat (List.length xs)).
    assert (Hlen : (0 <= len)%Z) by (unfold len; lia).
    assert (Hb : ((a + Request.page_size q)%Z = 0%Z)
                 \/ (a = 0%Z /\ Request.page_size q = 0%Z))
      by (unfold a; destruct Hz as [-> | ->]; lia).
    clearbody a len. unfold adjust_index.
    destruct Hb as [Hb | [Ha Hs]].
    + rewrite Hb. cbn [Z.ltb Z.compare].
      destruct (Z.ltb_spec a 0); lia.
    + rewrite Ha, Hs. cbn [Z.add Z.ltb Z.compare]. lia.
Qed.

End PipelineClaims.

(** ** Concrete requests *)

(** Sorting by trader and then by descending time orders by time; Ann's
    and Bob's trades of time 10 stay in the order the trader sort gave them.
    With the keys swapped the trader decides. *)
Example last_key_wins :
  (r <- list_trades sample_inherited small_db
          (Request.with_sort_by Request.default ["trader"; "-trade_date_time"]) ;;
   Ok (map trade_id r)) = Ok [Some "a"; Some "c"; Some "d"; Some "b"] /\
  (r <- list_trades sample_inherited small_db
          (Request.with_sort_by Request.default ["-trade_date_time"; "trader"]) ;;
   Ok (map trade_id r)) = Ok [Some "a"; Some "d"; Some "b"; Some "c"].
Proof. split; vm_compute; reflexivity. Qed.

Lemma sort_keys_in_sequence_witness :
  exists res,
    sorted_stage sample_inherited small_db
      (Request.with_sort_by Request.default ["trader"; "-trade_date_time"]) = Ok res.
Proof.
  refine (proj2 (proj2 (proj2
            (sort_keys_in_sequence sample_inherited small_db
               (Request.with_sort_by Request.default ["trader"; "-trade_date_time"])
               ["trader"] "-trade_date_time" (TradeDB.trades small_db)
               eq_refl eq_refl))) _).
  repeat constructor.
Defined.

(** On the seeded store the request sorted by [-price] fails. *)
Lemma sort_by_price_raises :
  list_trades sample_inherited (trade_db sample_rng)
    (Request.with_sort_by Request.default ["-price"]) = Raise AttributeError.
Proof. vm_compute. reflexivity. Qed.

Lemma sort_by_price_desc_witness :
  list_trades sample_inherited small_db
    (Request.with_sort_by Request.default ["-price"]) = Raise AttributeError.
Proof.
  refine (proj2 (proj1
            (sort_by_price_desc sample_inherited
               (Request.with_sort_by Request.default ["-price"]))
            small_db (TradeDB.trades small_db) eq_refl eq_refl
            (fun _ => eq_refl)) _).
  discriminate.
Defined.

(** On the seeded store an unknown sort key raises [AttributeError]; when
    the trader restriction leaves no trade, the same key is skipped. *)
Lemma unknown_sort_field_is_no_validation_error :
  list_trades sample_inherited (trade_db sample_rng)
    (Request.with_sort_by Request.default ["nonexistent_field"])
  = Raise AttributeError /\
  list_trades sample_inherited (trade_db sample_rng)
    (Request.with_trader
       (Request.with_sort_by Request.default ["nonexistent_field"])
       (Some "Nobody"))
  = Ok [].
Proof. split; vm_compute; reflexivity. Qed.

Lemma unknown_sort_field_faults_witness :
  list_trades sample_inherited small_db
    (Request.with_sort_by Request.default ["nonexistent_field"])
  <> Raise ValidationError.
Proof.
  exact (proj1 (unknown_sort_field_faults sample_inherited small_db
                  (Request.with_sort_by Request.default ["nonexistent_field"])
                  "nonexistent_field" (or_introl eq_refl) eq_refl
                  (fun _ => eq_refl))).
Defined.

(** On the seeded store [page = -1] with [page_size = 2] returns the trades
    at the fourth and third place from the end of the sorted sequence, and
    [page = 0] returns the empty page. *)
Lemma negative_page_returns_a_slice :
  (r <- list_trades sample_inherited (trade_db sample_rng)
          (Request.with_page Request.default (-1) 2) ;;
   Ok (map trader r)) = Ok ["Ilex Doe"; "Blex Doe"] /\
  list_trades sample_inherited (trade_db sample_rng)
    (Request.with_page Request.default 0 3) = Ok [].
Proof. split; vm_compute; reflexivity. Qed.

Lemma page_bounds_unchecked_witness :
  list_trades sample_inherited small_db (Request.with_page Request.default 0 3)
  <> Raise ValidationError.
Proof.
  exact (proj1 (page_bounds_unchecked sample_inherited small_db
                  (Request.with_page Request.default 0 3)
                  (or_introl eq_refl))).
Defined.

Lemma get_by_id_correct_witness :
  get_trade_by_id small_db "c" = Ok (plain_trade "c" "Cid" 20%Z).
Proof.
  refine (proj1 (proj2 (get_by_id_correct small_db _))
                (plain_trade "c" "Cid" 20%Z) "c" _ eq_refl).
  - repeat constructor; simpl; intuition discriminate.
  - simpl. auto.
Defined.

(** * Further properties of the code *)

(** ** The store: insertion and lookup *)

Lemma get_trade_by_id_loop_app (l1 l2 : list Trade) (id : option string) :
  TradeDB.get_trade_by_id_loop (l1 ++ l2) id =
  match TradeDB.get_trade_by_id_loop l1 id with
  | Some x => Some x
  | None => TradeDB.get_trade_by_id_loop l2 id
  end.
Proof.
  induction l1 as [| x l1 IH]; simpl; [reflexivity |].
  now destruct (opt_str_eqb (trade_id x) id).
Qed.

(** X1. Lookup after [add_trade]: an id that was found before is answered
    with the same trade as before, and an id that was not found is answered
    with the added trade exactly when it is the added trade's id.  A trade
    added under an id the store already holds is never returned. *)
Theorem add_then_lookup (db : TradeDB.t) (t : Trade) (id : option string) :
  TradeDB.get_trade_by_id (TradeDB.add_trade db t) id =
    match TradeDB.get_trade_by_id db id with
    | Some x => Some x
    | None => if opt_str_eqb (trade_id t) id then Some t else None
    end /\
  ((exists x, In x (TradeDB.trades db) /\ trade_id x = trade_id t) ->
   forall id', TradeDB.get_trade_by_id (TradeDB.add_trade db t) id' =
               TradeDB.get_trade_by_id db id').
Proof.
  unfold TradeDB.get_trade_by_id, TradeDB.add_trade. cbn [TradeDB.trades].
  split.
  - rewrite get_trade_by_id_loop_app. reflexivity.
  - intros (x & Hin & Hid) id'. rewrite get_trade_by_id_loop_app.
    destruct (TradeDB.get_trade_by_id_loop (TradeDB.trades db) id') eqn:E;
      [reflexivity |].
    simpl. destruct (opt_str_eqb (trade_id t) id') eqn:Et; [| reflexivity].
    apply opt_str_eqb_eq in Et.
    rewrite get_trade_by_id_loop_None in E.
    exfalso. apply (E x Hin). congruence.
Qed.

Lemma add_then_lookup_witness :
  TradeDB.get_trade_by_id
    (TradeDB.add_trade small_db (plain_trade "a" "Zed" 99%Z)) (Some "a") =
  TradeDB.get_trade_by_id small_db (Some "a").
Proof.
  refine (proj2 (add_then_lookup small_db (plain_trade "a" "Zed" 99%Z) None) _ (Some "a")).
  exists (plain_trade "a" "Ann" 30%Z). split; [left; reflexivity | reflexivity].
Defined.

(** X2. Lookup on any store, duplicates allowed: the answer is the earliest
    inserted trade that carries the id. *)
Theorem lookup_first_match (db : TradeDB.t) (id : option string) (t : Trade) :
  TradeDB.get_trade_by_id db id = Some t <->
  exists l1 l2,
    TradeDB.trades db = l1 ++ t :: l2 /\ trade_id t = id /\
    Forall (fun x => trade_id x <> id) l1.
Proof.
  unfold TradeDB.get_trade_by_id.
  induction (TradeDB.trades db) as [| x l IH]; simpl.
  - split; [discriminate | intros (l1 & l2 & H & _)].
    destruct l1; discriminate H.
  - destruct (opt_str_eqb (trade_id x) id) eqn:E.
    + apply opt_str_eqb_eq in E. split.
      * intros H. injection H as <-. exists [], l. auto.
      * intros (l1 & l2 & H & _ & Hf). destruct l1 as [| y l1].
        -- simpl in H. congruence.
        -- injection H as <- _. inversion Hf; subst. contradiction.
    + assert (Hne : trade_id x <> id)
        by (intros H; apply opt_str_eqb_eq in H; congruence).
      rewrite IH. split.
      * intros (l1 & l2 & -> & Hid & Hf). exists (x :: l1), l2. auto.
      * intros (l1 & l2 & H & Hid & Hf). destruct l1 as [| y l1].
        -- simpl in H. injection H as -> _. contradiction.
        -- injection H as <- ->. inversion Hf; subst. eauto.
Qed.

(** ** [filter_trades] *)

Lemma asset_class_passesb_meets ac (t : Trade) :
  asset_class_passesb ac t = true <-> asset_class_meets ac t.
Proof.
  unfold asset_class_passesb, asset_class_meets.
  destruct ac as [[str | l] |]; [| | tauto].
  - unfold occurs_in. destruct (asset_class t) as [a |].
    + rewrite str_in_spec. split; [eauto |].
      intros (a' & Ha & H). now injection Ha as <-.
    + split; [discriminate | intros (a' & Ha & _); discriminate Ha].
  - rewrite existsb_exists. split.
    + intros (y & Hy & Heq). apply opt_str_eqb_eq in Heq. eauto.
    + intros (a & Ha & Hin). exists a. split; [exact Hin |].
      apply opt_str_eqb_eq. exact Ha.
Qed.

Lemma start_passesb_meets s (t : Trade) :
  start_passesb s t = true <->
  forall s0, s = Some s0 -> at_or_after s0 (trade_date_time t).
Proof.
  unfold start_passesb, at_or_after. destruct s as [[d | d] |].
  - rewrite Z.leb_le. split.
    + intros H s1 H1. injection H1 as <-. eauto.
    + intros H. destruct (H _ eq_refl) as (d' & Hd & Hle). now injection Hd as <-.
  - split; [discriminate |].
    intros H. destruct (H _ eq_refl) as (d' & Hd & _). discriminate Hd.
  - split; [intros _ s0 H; discriminate H | reflexivity].
Qed.

Lemma end_passesb_meets e (t : Trade) :
  end_passesb e t = true <->
  forall e0, e = Some e0 -> at_or_before e0 (trade_date_time t).
Proof.
  unfold end_passesb, at_or_before. destruct e as [[d | d] |].
  - rewrite Z.leb_le. split.
    + intros H s1 H1. injection H1 as <-. eauto.
    + intros H. destruct (H _ eq_refl) as (d' & Hd & Hle). now injection Hd as <-.
  - split; [discriminate |].
    intros H. destruct (H _ eq_refl) as (d' & Hd & _). discriminate Hd.
  - split; [intros _ s0 H; discriminate H | reflexivity].
Qed.



Lemma passesb_meets ac s e mn mx ty (t : Trade) :
  passesb ac s e mn mx ty t = true <-> meets ac s e mn mx ty t.
Proof.
  unfold passesb, meets. rewrite !andb_true_iff.
  rewrite asset_class_passesb_meets, start_passesb_meets, end_passesb_meets.
  assert (Hmn : match mn with
                | None => true
                | Some p => Qle_bool p (price (trade_details t))
                end = true
                <-> forall p, mn = Some p -> (p <= price (trade_details t))%Q).
  { destruct mn as [p |].
    - rewrite Qle_bool_iff. split; [intros H p1 H1; now injection H1 as <- | auto].
    - split; [intros _ p H; discriminate H | reflexivity]. }
  assert (Hmx : match mx with
                | None => true
                | Some p => Qle_bool (price (trade_details t)) p
                end = true
                <-> forall p, mx = Some p -> (price (trade_details t) <= p)%Q).
  { destruct mx as [p |].
    - rewrite Qle_bool_iff. split; [intros H p1 H1; now injection H1 as <- | auto].
    - split; [intros _ p H; discriminate H | reflexivity]. }
  assert (Hty : match ty with
                | None => true
                | Some ty0 => String.eqb (buySellIndicator (trade_details t)) ty0
                end = true
                <-> forall ty0, ty = Some ty0 -> buySellIndicator (trade_details t) = ty0).
  { destruct ty as [ty0 |].
    - rewrite String.eqb_eq. split; [intros H y H1; now injection H1 as <- | auto].
    - split; [intros _ y H; discriminate H | reflexivity]. }
  rewrite Hmn, Hmx, Hty. tauto.
Qed.


(** An offset-aware bound raises as soon as one trade is compared with
    it, and not before: with an asset-class list that no trade is in, or a
    naive [start] after every stored time in front of an aware [end], the
    filter returns. *)
Example aware_bound_raises :
  TradeDB.filter_trades small_db None (Some (Aware 0%Z)) None None None None
    = Raise TypeError /\
  TradeDB.filter_trades small_db None None (Some (Aware 0%Z)) None None None
    = Raise TypeError /\
  TradeDB.filter_trades small_db (Some (ListContainer [])) (Some (Aware 0%Z))
    None None None None = Ok [] /\
  TradeDB.filter_trades small_db None (Some (Naive 1000%Z)) (Some (Aware 0%Z))
    None None None = Ok [].
Proof. repeat split; vm_compute; reflexivity. Qed.

(** X4. A price window whose upper bound lies below its lower bound selects
    no trade. *)
Theorem inverted_price_window_is_empty (db : TradeDB.t) ac s e ty (lo hi : Q)
    (r : list Trade) :
  (hi < lo)%Q ->
  TradeDB.filter_trades db ac s e (Some lo) (Some hi) ty = Ok r ->
  r = [].
Proof.
  intros Hlt H. unfold TradeDB.filter_trades in H.
  rewrite filter_loop_eq in H.
  destruct (existsb _ _); [discriminate |]. injection H as <-.
  apply filter_none. intros t.
  destruct (passesb ac s e (Some lo) (Some hi) ty t) eqn:Ep; [| reflexivity].
  apply passesb_meets in Ep. destruct Ep as (_ & _ & _ & Hmin & Hmax & _).
  specialize (Hmin lo eq_refl). specialize (Hmax hi eq_refl).
  exfalso. apply (Qlt_not_le _ _ Hlt). eapply Qle_trans; eassumption.
Qed.

Lemma inverted_price_window_witness :
  exists r,
    TradeDB.filter_trades small_db None None None (Some 200%Q) (Some 50%Q) None = Ok r /\
    r = [].
Proof.
  exact (ex_intro _ []
           (conj eq_refl
              (inverted_price_window_is_empty small_db None None None None
                 200%Q 50%Q [] eq_refl eq_refl))).
Defined.

(** ** The response of [list_trades] *)

Lemma In_slice {A : Type} (l : list A) (a b : Z) (x : A) :
  In x (slice l a b) -> In x l.
Proof.
  unfold slice. intros H.
  set (n := Z.to_nat (adjust_index (Z.of_nat (List.length l)) a)) in *.
  set (m := Z.to_nat _) in H.
  rewrite <- (firstn_skipn n l). apply in_or_app. right.
  rewrite <- (firstn_skipn m (skipn n l)). apply in_or_app. now left.
Qed.

Lemma truthy_Some (name : string) : truthy (Some name) = true <-> name <> EmptyString.
Proof. destruct name; simpl; split; congruence. Qed.

Lemma excluded_In (name : string) (l : list string) :
  existsb (String.eqb name) l = true <-> In name l.
Proof.
  rewrite existsb_exists. split.
  - intros (y & Hy & Heq). apply String.eqb_eq in Heq. now subst.
  - intros H. exists name. split; [exact H | apply String.eqb_refl].
Qed.

(** The trades that pass lines 260-264. *)
Lemma restrict_In (q : Request.t) (f : list Trade) (t : Trade) :
  In t (restrict q f) <->
  In t f /\ ~ In (trader t) (Request.exclude_traders q) /\
  (forall name, Request.trader q = Some name -> name <> EmptyString ->
                trader t = name).
Proof.
  unfold restrict.
  assert (Hex : In t (filter (fun trade =>
                   negb (existsb (String.eqb (trader trade)) (Request.exclude_traders q))) f)
                <-> In t f /\ ~ In (trader t) (Request.exclude_traders q)).
  { rewrite filter_In, negb_true_iff, <- excluded_In.
    destruct (existsb _ _); intuition congruence. }
  destruct (Request.trader q) as [name |].
  - destruct (truthy (Some name)) eqn:Et.
    + rewrite filter_In, Hex, String.eqb_eq. apply truthy_Some in Et. split.
      * intros ((Hin & Hn) & Heq). repeat split; try assumption.
        intros name' H _. now injection H as <-.
      * intros (Hin & Hn & H). auto.
    + rewrite Hex. split.
      * intros (Hin & Hn). repeat split; try assumption.
        intros name' H Hne. injection H as <-.
        apply truthy_Some in Hne. congruence.
      * tauto.
  - rewrite Hex. split; [| tauto].
    intros (Hin & Hn). repeat split; try assumption. discriminate.
Qed.

Lemma base_set_Ok (db : TradeDB.t) (q : Request.t) (f : list Trade) :
  base_set db q = Ok f ->
  TradeDB.filter_trades db
    (option_map StrContainer (Request.asset_classes q))
    (Request.start q) (Request.end_ q)
    (Request.min_price q) (Request.max_price q) (Request.trade_type q) = Ok f.
Proof. unfold base_set. intros H. invert_bind H. exact H. Qed.

Lemma list_trades_Ok (inherited_attr : Trade -> string -> option value) (db : TradeDB.t)
    (q : Request.t) (returned : list Trade) :
  list_trades inherited_attr db q = Ok returned ->
  exists f res,
    base_set db q = Ok f /\
    sort_trades inherited_attr (Request.sort_by q) (restrict q f) = Ok res /\
    returned = paginate res (Request.page q) (Request.page_size q).
Proof.
  unfold list_trades. intros H. invert_bind H. invert_bind H.
  injection H as <-. eauto.
Qed.

(** X5. Every trade [list_trades] returns is a stored trade that meets
    every supplied filter constraint, whose trader is none of the excluded
    ones and, when a trader is asked for, is that trader; and the response
    never holds more trades than the store. *)
Theorem list_trades_sound (inherited_attr : Trade -> string -> option value) (db : TradeDB.t)
    (q : Request.t) (returned : list Trade) :
  list_trades inherited_attr db q = Ok returned ->
  (forall t, In t returned ->
     In t (TradeDB.trades db) /\
     meets (option_map StrContainer (Request.asset_classes q))
           (Request.start q) (Request.end_ q)
           (Request.min_price q) (Request.max_price q) (Request.trade_type q) t /\
     ~ In (trader t) (Request.exclude_traders q) /\
     (forall name, Request.trader q = Some name -> name <> EmptyString ->
                   trader t = name)) /\
  List.length returned <= List.length (TradeDB.trades db).
Proof.
  intros H. apply list_trades_Ok in H.
  destruct H as (f & res & Hf & Hres & ->).
  apply base_set_Ok in Hf.
  unfold TradeDB.filter_trades in Hf. rewrite filter_loop_eq in Hf.
  destruct (existsb _ _); [discriminate |]. injection Hf as <-.
  apply sort_trades_perm in Hres.
  split.
  - intros t Hin. apply In_slice in Hin.
    apply (Permutation_in _ (Permutation_sym Hres)) in Hin.
    apply restrict_In in Hin. destruct Hin as (Hin & Hex & Htr).
    apply filter_In in Hin. destruct Hin as [Hin Hp].
    apply passesb_meets in Hp. auto.
  - unfold paginate, slice.
    rewrite length_firstn, length_skipn, <- (Permutation_length Hres).
    unfold restrict.
    pose proof (filter_length_le (passesb (option_map StrContainer (Request.asset_classes q))
                  (Request.start q) (Request.end_ q) (Request.min_price q)
                  (Request.max_price q) (Request.trade_type q)) (TradeDB.trades db)) as H1.
    set (f := filter _ (TradeDB.trades db)) in *.
    pose proof (filter_length_le (fun trade =>
                  negb (existsb (String.eqb (trader trade)) (Request.exclude_traders q))) f) as H2.
    set (g := filter _ f) in *.
    assert (H3 : List.length (match Request.trader q with
                              | Some name =>
                                  if truthy (Some name)
                                  then filter (fun trade => String.eqb (trader trade) name) g
                                  else g
                              | None => g
                              end) <= List.length g).
    { destruct (Request.trader q) as [name |]; [| lia].
      destruct (truthy (Some name)); [apply filter_length_le | lia]. }
    lia.
Qed.

Lemma list_trades_sound_witness :
  List.length (TradeDB.trades small_db) = 4 /\
  List.length
    (paginate [plain_trade "b" "Bob" 10%Z; plain_trade "d" "Ann" 10%Z;
               plain_trade "c" "Cid" 20%Z; plain_trade "a" "Ann" 30%Z] 1 10) <= 4.
Proof.
  split; [reflexivity |].
  exact (proj2 (list_trades_sound sample_inherited small_db Request.default _ eq_refl)).
Defined.

(** X6. A trader who is asked for and excluded at once leaves nothing: the
    response is the empty page whenever search and filter return. *)
Theorem excluded_trader_asked_for (inherited_attr : Trade -> string -> option value)
    (db : TradeDB.t) (q : Request.t) (name : string) (f : list Trade) :
  Request.trader q = Some name -> name <> EmptyString ->
  In name (Request.exclude_traders q) ->
  base_set db q = Ok f ->
  list_trades inherited_attr db q = Ok [].
Proof.
  intros Hq Hne Hex Hf.
  assert (Hnil : restrict q f = []).
  { destruct (restrict q f) as [| t r] eqn:E; [reflexivity |].
    assert (Hin : In t (restrict q f)) by (rewrite E; left; reflexivity).
    apply restrict_In in Hin. destruct Hin as (_ & Hn & Ht).
    rewrite (Ht name Hq Hne) in Hn. contradiction. }
  unfold list_trades. rewrite Hf. cbn [bind].
  rewrite Hnil, sort_trades_nil. cbn [bind]. now rewrite paginate_nil.
Qed.

Lemma excluded_trader_asked_for_witness :
  list_trades sample_inherited small_db ann_conflict_request = Ok [].
Proof.
  refine (excluded_trader_asked_for sample_inherited small_db
            ann_conflict_request "Ann" (TradeDB.trades small_db) eq_refl _ _ eq_refl).
  - discriminate.
  - right. left. reflexivity.
Defined.

(** An empty search text and an empty trader name count as absent: the
    response is that of the request without them. *)
Theorem empty_text_parameters_ignored (inherited_attr : Trade -> string -> option value)
    (db : TradeDB.t) (q : Request.t) :
  list_trades inherited_attr db (Request.with_search q (Some EmptyString)) =
    list_trades inherited_attr db (Request.with_search q None) /\
  list_trades inherited_attr db (Request.with_trader q (Some EmptyString)) =
    list_trades inherited_attr db (Request.with_trader q None).
Proof. split; reflexivity. Qed.

(** ** Pages *)

Lemma firstn_plus {A : Type} (n m : nat) (l : list A) :
  firstn (n + m) l = firstn n l ++ firstn m (skipn n l).
Proof.
  revert l. induction n as [| n IH]; intros l; [reflexivity |].
  destruct l as [| x l]; simpl; [now rewrite firstn_nil | now rewrite IH].
Qed.

Lemma paginate_firstn_skipn {A : Type} (xs : list A) (p : nat) (page_size : Z) :
  (1 <= page_size)%Z ->
  paginate xs (Z.of_nat (S p)) page_size =
  firstn (Z.to_nat page_size) (skipn (p * Z.to_nat page_size) xs).
Proof.
  intros Hs. unfold paginate. rewrite slice_within by nia.
  f_equal; [f_equal; lia | f_equal; nia].
Qed.

(** X7. With [page_size >= 1] the pages follow one another without gap or
    overlap: pages 1 to [k] put end to end are the first [k * page_size]
    elements of the sorted sequence, so the pages up to the last non-empty
    one give the whole sequence back; no page is longer than [page_size]. *)
Theorem pages_tile_the_sequence (A : Type) (xs : list A) (page_size : Z) (k : nat) :
  (1 <= page_size)%Z ->
  List.concat (map (fun p => paginate xs (Z.of_nat p) page_size) (seq 1 k)) =
    firstn (k * Z.to_nat page_size) xs /\
  (List.length xs <= k * Z.to_nat page_size ->
   List.concat (map (fun p => paginate xs (Z.of_nat p) page_size) (seq 1 k)) = xs) /\
  (forall p, (1 <= p)%Z ->
     Z.of_nat (List.length (paginate xs p page_size)) <= page_size)%Z.
Proof.
  intros Hs.
  assert (E : List.concat (map (fun p => paginate xs (Z.of_nat p) page_size) (seq 1 k)) =
              firstn (k * Z.to_nat page_size) xs).
  { induction k as [| k IH]; [reflexivity |].
    rewrite seq_S, map_app, concat_app, IH. cbn [map List.concat].
    rewrite app_nil_r. replace (1 + k) with (S k) by lia.
    rewrite paginate_firstn_skipn by exact Hs.
    rewrite <- firstn_plus. f_equal. lia. }
  split; [exact E | split].
  - intros Hlen. rewrite E. now apply firstn_all2.
  - intros p Hp.
    replace p with (Z.of_nat (S (Z.to_nat (p - 1)))) by lia.
    rewrite paginate_firstn_skipn by exact Hs.
    pose proof (firstn_le_length (Z.to_nat page_size)
                  (skipn (Z.to_nat (p - 1) * Z.to_nat page_size) xs)).
    lia.
Qed.

Lemma pages_tile_the_sequence_witness :
  List.concat (map (fun p => paginate [1; 2; 3; 4; 5; 6; 7] (Z.of_nat p) 3) (seq 1 3)) =
  [1; 2; 3; 4; 5; 6; 7].
Proof.
  refine (proj1 (proj2 (pages_tile_the_sequence nat [1; 2; 3; 4; 5; 6; 7] 3 3 _)) _).
  - discriminate.
  - simpl. repeat constructor.
Defined.

(** ** More on [sorted] and the sort loop *)

Lemma filter_and {A : Type} (f g : A -> bool) (l : list A) :
  filter f (filter g l) = filter (fun x => g x && f x) l.
Proof.
  induction l as [| x l IH]; [reflexivity |].
  simpl. destruct (g x); simpl; [destruct (f x) |]; now rewrite IH.
Qed.

(** Lines 260-264 keep the order of their input. *)
Lemma restrict_is_filter (q : Request.t) (f : list Trade) :
  exists g, restrict q f = filter g f.
Proof.
  unfold restrict. destruct (Request.trader q) as [name |].
  - destruct (truthy (Some name)).
    + rewrite filter_and. eauto.
    + eauto.
  - eauto.
Qed.

(** The trades handed to the sort loop stand in store order. *)
Lemma select_is_filter (db : TradeDB.t) (q : Request.t) (sel : list Trade) :
  select db q = Ok sel -> exists g, sel = filter g (TradeDB.trades db).
Proof.
  unfold select. intros H. invert_bind H. injection H as <-.
  apply base_set_Ok in Ha. unfold TradeDB.filter_trades in Ha.
  rewrite filter_loop_eq in Ha.
  destruct (existsb _ _); [discriminate |]. injection Ha as <-.
  destruct (restrict_is_filter q (filter (passesb
              (option_map StrContainer (Request.asset_classes q))
              (Request.start q) (Request.end_ q) (Request.min_price q)
              (Request.max_price q) (Request.trade_type q)) (TradeDB.trades db)))
    as [g ->].
  rewrite filter_and. eauto.
Qed.

(** Sorting by [trade_date_time]: ascending, and trades of one time stay
    in the order they came in. *)
Lemma sort_by_time_asc (inherited_attr : Trade -> string -> option value) (sel : list Trade) :
  exists res,
    sort_trades inherited_attr ["trade_date_time"] sel = Ok res /\
    Permutation sel res /\
    StronglySorted (fun a b => (trade_date_time a <= trade_date_time b)%Z) res /\
    (forall v, filter (fun t => (trade_date_time t =? v)%Z) res =
               filter (fun t => (trade_date_time t =? v)%Z) sel).
Proof.
  destruct (sort_trades_defined inherited_attr ["trade_date_time"] sel)
    as [res Hres]; [repeat constructor |].
  exists res. split; [exact Hres |].
  cbn [sort_trades] in Hres. invert_bind Hres. injection Hres as <-.
  pose proof (sort_step_spec _ _ _ _ Ha) as (Hperm & Hs & _).
  split; [exact Hperm | split].
  - eapply StronglySorted_impl; [| exact Hs].
    intros x y (kx & ky & Hx & Hy & Hlt).
    cbn in Hx, Hy. injection Hx as <-. injection Hy as <-.
    cbn in Hlt. injection Hlt as Hlt. lia.
  - intros v. unfold sort_step in Ha.
    change (lstrip_dash "trade_date_time") with "trade_date_time" in Ha.
    change (startswith_dash "trade_date_time") with false in Ha.
    pose proof (sorted_stable _ _ _ _ (VDatetime v) Ha) as Hst.
    assert (Hext : forall t,
              (trade_date_time t =? v)%Z =
              item_ties (fun x => getattr inherited_attr x "trade_date_time")
                        (VDatetime v) t).
    { intros t. unfold item_ties, same_key. cbn.
      destruct (Z.ltb_spec v (trade_date_time t)),
               (Z.ltb_spec (trade_date_time t) v),
               (Z.eqb_spec (trade_date_time t) v); try reflexivity; lia. }
    rewrite !(filter_ext _ _ Hext). exact Hst.
Qed.

(** X8. With the default sort key the sequence handed to pagination is in
    ascending [trade_date_time] order, and trades with the same time stand in
    store insertion order: the selection keeps store order and the sort is
    stable. *)
Theorem default_order_is_time_then_insertion (inherited_attr : Trade -> string -> option value)
    (db : TradeDB.t) (q : Request.t) (sel : list Trade) :
  Request.sort_by q = ["trade_date_time"] ->
  select db q = Ok sel ->
  (exists g, sel = filter g (TradeDB.trades db)) /\
  exists res,
    sorted_stage inherited_attr db q = Ok res /\
    Permutation sel res /\
    StronglySorted (fun a b => (trade_date_time a <= trade_date_time b)%Z) res /\
    (forall v, filter (fun t => (trade_date_time t =? v)%Z) res =
               filter (fun t => (trade_date_time t =? v)%Z) sel).
Proof.
  intros Hkeys Hsel. split; [eapply select_is_filter; eassumption |].
  rewrite (sorted_stage_select _ _ _ _ Hsel), Hkeys.
  apply sort_by_time_asc.
Qed.

Lemma default_order_witness :
  exists res,
    sorted_stage sample_inherited small_db Request.default = Ok res /\
    Permutation (TradeDB.trades small_db) res.
Proof.
  destruct (proj2 (default_order_is_time_then_insertion sample_inherited small_db
                     Request.default (TradeDB.trades small_db) eq_refl eq_refl))
    as (res & H1 & H2 & _).
  exists res. split; assumption.
Defined.

Section SortedMore.

Context {A : Type} (key : A -> result value).

Lemma stable_sort_of_sorted (l : list (value * A)) :
  StronglySorted keyed_le l -> stable_sort l = Ok l.
Proof.
  induction 1 as [| x l Hs IH Hx]; [reflexivity |].
  cbn [stable_sort]. rewrite IH. cbn [bind].
  destruct Hx as [| y l Hy _]; [reflexivity |].
  cbn [insert_keyed]. unfold keyed_le in Hy. now rewrite Hy.
Qed.

Lemma mapM_map_snd (l : list (value * A)) :
  Forall (fun e => key (snd e) = Ok (fst e)) l ->
  mapM key (map snd l) = Ok (map fst l).
Proof.
  induction 1 as [| e l He _ IH]; [reflexivity |].
  cbn [map mapM]. now rewrite He, IH.
Qed.

Lemma combine_fst_snd {B : Type} (l : list (B * A)) :
  combine (map fst l) (map snd l) = l.
Proof.
  induction l as [| [b a] l IH]; [reflexivity |]. simpl. now rewrite IH.
Qed.

(** Sorting again with the same key and direction changes nothing. *)
Lemma sorted_again (xs ys : list A) (reverse : bool) :
  sorted xs key reverse = Ok ys -> sorted ys key reverse = Ok ys.
Proof.
  intros H. apply sorted_inv in H. destruct H as (ks & out & Hk & Hs & ->).
  pose proof (sorted_keyed key _ _ _ _ Hk Hs) as Hf.
  apply stable_sort_sorted in Hs.
  unfold sorted. destruct reverse.
  - rewrite mapM_map_snd
      by (apply (Permutation_Forall (Permutation_rev _)); exact Hf).
    cbn [bind]. rewrite combine_fst_snd, rev_involutive.
    rewrite (stable_sort_of_sorted _ Hs). reflexivity.
  - rewrite (mapM_map_snd _ Hf). cbn [bind]. rewrite combine_fst_snd.
    rewrite (stable_sort_of_sorted _ Hs). reflexivity.
Qed.

Lemma lt_value_self (a b : value) (x : bool) :
  lt_value a b = Ok x ->
  (exists y, lt_value a a = Ok y) /\ (exists y, lt_value b b = Ok y).
Proof. destruct a, b; simpl; try discriminate; eauto. Qed.

(** When a sort of two or more elements returns, every key is one that
    compares. *)
Lemma stable_sort_Ok_comparable (l r : list (value * A)) :
  stable_sort l = Ok r -> 2 <= List.length l ->
  Forall (fun e => exists y, lt_value (fst e) (fst e) = Ok y) l.
Proof.
  intros H Hlen.
  pose proof (stable_sort_perm _ _ H) as Hp.
  apply stable_sort_sorted in H.
  apply (Permutation_Forall (Permutation_sym Hp)).
  rewrite (Permutation_length Hp) in Hlen.
  destruct H as [| x r Hs Hx]; [simpl in Hlen; lia |].
  destruct Hx as [| y r Hy Hr]; [simpl in Hlen; lia |].
  constructor.
  - eapply (proj2 (lt_value_self _ _ _ Hy)).
  - apply Forall_cons.
    + eapply (proj1 (lt_value_self _ _ _ Hy)).
    + eapply Forall_impl; [| exact Hr].
      intros z Hz. eapply (proj1 (lt_value_self _ _ _ Hz)).
Qed.

Lemma sorted_Ok_comparable (xs ys : list A) (reverse : bool) (x : A) :
  sorted xs key reverse = Ok ys -> 2 <= List.length xs -> In x xs ->
  exists k y, key x = Ok k /\ lt_value k k = Ok y.
Proof.
  intros H Hlen Hin. apply sorted_inv in H.
  destruct H as (ks & out & Hk & Hs & _).
  pose proof (mapM_combine key _ _ Hk) as [Hf Hm].
  pose proof (mapM_length _ _ _ Hk) as Hl.
  apply stable_sort_Ok_comparable in Hs.
  - assert (Hc : Forall (fun e => exists y, lt_value (fst e) (fst e) = Ok y)
                        (combine ks xs)).
    { destruct reverse; [| exact Hs].
      apply (Permutation_Forall (Permutation_sym (Permutation_rev _))). exact Hs. }
    rewrite <- Hm in Hin. apply in_map_iff in Hin.
    destruct Hin as (e & <- & He).
    rewrite Forall_forall in Hf, Hc.
    destruct (Hc e He) as [y Hy]. exists (fst e), y. auto.
  - destruct reverse; [rewrite length_rev |]; rewrite length_combine; lia.
Qed.

Lemma sorted_singleton (x : A) (k : value) (reverse : bool) :
  key x = Ok k -> sorted [x] key reverse = Ok [x].
Proof. intros H. unfold sorted. cbn. rewrite H. cbn. now destruct reverse. Qed.

End SortedMore.

Lemma is_trade_field_defined (inherited_attr : Trade -> string -> option value) (t : Trade)
    (name : string) :
  is_trade_field name = true -> exists v, getattr inherited_attr t name = Ok v.
Proof.
  unfold is_trade_field, trade_fields. cbn [existsb].
  rewrite !orb_true_iff, !String.eqb_eq.
  intros [-> | [-> | [-> | [-> | [-> | [-> | [-> | [-> | H]]]]]]]];
    [eexists; reflexivity .. | discriminate H].
Qed.

Lemma sort_trades_twice (inherited_attr : Trade -> string -> option value) (keys : list string)
    (k : string) (xs : list Trade) :
  sort_trades inherited_attr (keys ++ [k; k]) xs =
  sort_trades inherited_attr (keys ++ [k]) xs.
Proof.
  replace (keys ++ [k; k]) with ((keys ++ [k]) ++ [k])
    by (now rewrite <- app_assoc).
  rewrite (sort_trades_last inherited_attr (keys ++ [k]) k xs).
  rewrite (sort_trades_last inherited_attr keys k xs).
  destruct (sort_trades inherited_attr keys xs) as [p | e]; [| reflexivity].
  cbn [bind].
  destruct (sort_step inherited_attr p k) as [res | e] eqn:E; [| reflexivity].
  cbn [bind]. unfold sort_step in *. eapply sorted_again. exact E.
Qed.

(** X9. Giving the last sort key twice changes nothing: the second round
    finds the sequence already in the order it asks for and returns it as
    it is (and a request that fails, fails the same way). *)
Theorem repeated_sort_key_is_idle (inherited_attr : Trade -> string -> option value)
    (db : TradeDB.t) (q : Request.t) (keys : list string) (k : string) :
  list_trades inherited_attr db (Request.with_sort_by q (keys ++ [k; k])) =
  list_trades inherited_attr db (Request.with_sort_by q (keys ++ [k])).
Proof.
  unfold list_trades.
  change (base_set db (Request.with_sort_by q (keys ++ [k; k])))
    with (base_set db q).
  change (base_set db (Request.with_sort_by q (keys ++ [k])))
    with (base_set db q).
  destruct (base_set db q) as [f | e]; [| reflexivity].
  cbn [bind].
  change (restrict (Request.with_sort_by q (keys ++ [k; k])) f) with (restrict q f).
  change (restrict (Request.with_sort_by q (keys ++ [k])) f) with (restrict q f).
  cbn [Request.sort_by Request.with_sort_by Request.page Request.page_size].
  now rewrite sort_trades_twice.
Qed.

(** X10. Sorting by an attribute that every trade has and whose value on
    some trade does not compare with [<] ([None] of an optional field, the
    embedded [trade_details]) raises [TypeError] as soon as two trades
    reach the sort; in particular a single trade without asset class,
    counterparty or id among them is enough.  A lone trade is returned as
    it is for every field of the model, since nothing is compared. *)
Theorem unorderable_sort_key_faults (inherited_attr : Trade -> string -> option value) :
  (forall sel, 2 <= List.length sel ->
     (forall field t k,
        (forall x, In x sel ->
           exists v, getattr inherited_attr x (lstrip_dash field) = Ok v) ->
        In t sel -> getattr inherited_attr t (lstrip_dash field) = Ok k ->
        lt_value k k = Raise TypeError ->
        sort_step inherited_attr sel field = Raise TypeError) /\
     (forall t, In t sel -> asset_class t = None ->
        sort_step inherited_attr sel "asset_class" = Raise TypeError) /\
     (forall t, In t sel -> counterparty t = None ->
        sort_step inherited_attr sel "counterparty" = Raise TypeError) /\
     (forall t, In t sel -> trade_id t = None ->
        sort_step inherited_attr sel "trade_id" = Raise TypeError) /\
     sort_step inherited_attr sel "trade_details" = Raise TypeError) /\
  (forall t field, is_trade_field (lstrip_dash field) = true ->
     sort_step inherited_attr [t] field = Ok [t]).
Proof.
  assert (Hgen : forall sel, 2 <= List.length sel ->
            forall field t k,
              (forall x, In x sel ->
                 exists v, getattr inherited_attr x (lstrip_dash field) = Ok v) ->
              In t sel -> getattr inherited_attr t (lstrip_dash field) = Ok k ->
              lt_value k k = Raise TypeError ->
              sort_step inherited_attr sel field = Raise TypeError).
  { intros sel Hlen field t k Hall Hin Hk Hlt. unfold sort_step.
    destruct (sorted sel _ (startswith_dash field)) as [ys | e] eqn:E.
    - destruct (sorted_Ok_comparable _ _ _ _ t E Hlen Hin) as (k' & y & Hk' & Hy).
      rewrite Hk in Hk'. injection Hk' as <-. congruence.
    - apply sorted_fault in E. destruct E as [(x & Hx & Hr) | ->]; [| reflexivity].
      destruct (Hall x Hx) as [v' Hv']. congruence. }
  assert (Hfield : forall sel name, is_trade_field name = true ->
            forall x, In x sel -> exists v, getattr inherited_attr x name = Ok v).
  { intros sel name Hf x _. now apply is_trade_field_defined. }
  split.
  - intros sel Hlen. split; [now apply Hgen |].
    split; [| split; [| split]].
    + intros t Hin Hn.
      apply (Hgen sel Hlen "asset_class" t VNone (Hfield sel "asset_class" eq_refl) Hin);
        [| reflexivity].
      cbn. now rewrite Hn.
    + intros t Hin Hn.
      apply (Hgen sel Hlen "counterparty" t VNone (Hfield sel "counterparty" eq_refl) Hin);
        [| reflexivity].
      cbn. now rewrite Hn.
    + intros t Hin Hn.
      apply (Hgen sel Hlen "trade_id" t VNone (Hfield sel "trade_id" eq_refl) Hin);
        [| reflexivity].
      cbn. now rewrite Hn.
    + destruct sel as [| t sel]; [simpl in Hlen; lia |].
      apply (Hgen _ Hlen "trade_details" t (VTradeDetails (trade_details t))
               (Hfield _ "trade_details" eq_refl));
        [left; reflexivity | reflexivity | reflexivity].
  - intros t field Hf.
    destruct (is_trade_field_defined inherited_attr t _ Hf) as [v Hv].
    unfold sort_step. now apply sorted_singleton with (k := v).
Qed.

Lemma unorderable_sort_key_witness :
  sort_step sample_inherited [orphan_trade; bad_trade] "-counterparty"
  = Raise TypeError.
Proof.
  refine (proj1 (proj1 (unorderable_sort_key_faults sample_inherited)
                   [orphan_trade; bad_trade] _)
                "-counterparty" orphan_trade VNone _ _ eq_refl eq_refl).
  - simpl. lia.
  - intros x _. eexists. reflexivity.
  - left. reflexivity.
Defined.

(** An inherited attribute sorts like any other key: by the string
    [__module__] or the boolean [__custom_root_type__], which are the same
    on every trade, the sequence comes back as it was, in either direction;
    by the method [dict] the comparison raises. *)
Example sort_by_inherited_attribute :
  sort_step sample_inherited (TradeDB.trades small_db) "__module__"
    = Ok (TradeDB.trades small_db) /\
  sort_step sample_inherited (TradeDB.trades small_db) "-__module__"
    = Ok (TradeDB.trades small_db) /\
  sort_step sample_inherited (TradeDB.trades small_db) "__custom_root_type__"
    = Ok (TradeDB.trades small_db) /\
  sort_step sample_inherited (TradeDB.trades small_db) "dict" = Raise TypeError /\
  sort_step sample_inherited (TradeDB.trades small_db) "nonexistent_field"
    = Raise AttributeError.
Proof. repeat split; vm_compute; reflexivity. Qed.

(** ** The seeding loop *)

Lemma generate_loop_nth (rng : nat -> Draw) (n i j : nat) (h : bool) :
  j < n ->
  nth_error (generate_loop rng n i h) j =
  Some (random_trade
          (if negb (h || existsb (coin_is_zero rng) (seq i j))
              && coin_is_zero rng (i + j)
           then "John Smith" else fake_name (rng (i + j)))
          (rng (i + j))).
Proof.
  revert i j h. induction n as [| n IH]; intros i j h Hj; [lia |].
  cbn [generate_loop]. fold (coin_is_zero rng i).
  destruct j as [| j].
  - cbn [seq existsb]. rewrite orb_false_r, Nat.add_0_r.
    now destruct (negb h && coin_is_zero rng i).
  - assert (E : forall h', nth_error (generate_loop rng n (S i) h') j =
                Some (random_trade
                        (if negb (h' || existsb (coin_is_zero rng) (seq (S i) j))
                            && coin_is_zero rng (i + S j)
                         then "John Smith" else fake_name (rng (i + S j)))
                        (rng (i + S j)))).
    { intros h'. rewrite IH by lia. now replace (S i + j) with (i + S j) by lia. }
    cbn [seq existsb].
    destruct h; cbn [negb andb orb nth_error]; [apply E |].
    destruct (coin_is_zero rng i); cbn [nth_error orb]; apply E.
Qed.

Lemma generate_loop_john (rng : nat -> Draw) (n i j : nat) :
  j < n -> coin_is_zero rng (i + j) = true ->
  exists t, In t (generate_loop rng n i false) /\ trader t = "John Smith".
Proof.
  revert i j. induction n as [| n IH]; intros i j Hj Hz; [lia |].
  cbn [generate_loop]. fold (coin_is_zero rng i). cbn [negb andb].
  destruct (coin_is_zero rng i) eqn:E.
  - eexists. split; [left; reflexivity | reflexivity].
  - destruct j as [| j]; [rewrite Nat.add_0_r in Hz; congruence |].
    destruct (IH (S i) j) as (t & Hin & Ht); [lia | |].
    + now replace (S i + j) with (i + S j) by lia.
    + exists t. split; [right; exact Hin | exact Ht].
Qed.

Lemma generate_loop_fake (rng : nat -> Draw) (n i : nat) (h : bool) :
  (forall j, j < n -> coin_is_zero rng (i + j) = false) ->
  map trader (generate_loop rng n i h) = map (fun j => fake_name (rng j)) (seq i n).
Proof.
  revert i h. induction n as [| n IH]; intros i h Hz; [reflexivity |].
  cbn [generate_loop]. fold (coin_is_zero rng i).
  pose proof (Hz 0 ltac:(lia)) as H0. rewrite Nat.add_0_r in H0.
  rewrite H0, andb_false_r. cbn [map seq trader random_trade]. f_equal.
  apply IH. intros j Hj. specialize (Hz (S j) ltac:(lia)).
  now replace (S i + j) with (i + S j) by lia.
Qed.

(** X11. [generate_random_trades] returns [num_trades] trades, the trade
    of iteration [i] built from that iteration's draws.  The name John Smith
    is given at the first iteration whose coin comes up 0 and only there, so
    a John Smith exists whenever some coin comes up 0; when no coin does,
    every trader name is Faker's, and nothing ensures a John Smith. *)
Theorem seeding_loop_names (rng : nat -> Draw) (num_trades : nat) :
  List.length (generate_random_trades rng num_trades) = num_trades /\
  (forall i, i < num_trades ->
     nth_error (generate_random_trades rng num_trades) i =
     Some (random_trade (trader_name_at rng i) (rng i))) /\
  (forall i, i < num_trades -> coin_is_zero rng i = true ->
     exists t, In t (generate_random_trades rng num_trades) /\
               trader t = "John Smith") /\
  ((forall i, i < num_trades -> coin_is_zero rng i = false) ->
   map trader (generate_random_trades rng num_trades) =
   map (fun i => fake_name (rng i)) (seq 0 num_trades)).
Proof.
  unfold generate_random_trades.
  split; [apply generate_loop_length | split; [| split]].
  - intros i Hi. rewrite generate_loop_nth by exact Hi.
    cbn [orb plus]. unfold trader_name_at.
    replace (forallb (fun j => negb (coin_is_zero rng j)) (seq 0 i))
      with (negb (existsb (coin_is_zero rng) (seq 0 i))); [reflexivity |].
    induction (seq 0 i) as [| x l IHl]; [reflexivity |].
    cbn [existsb forallb]. rewrite negb_orb. now rewrite IHl.
  - intros i Hi Hz. now apply (generate_loop_john rng num_trades 0 i).
  - intros Hz. now apply generate_loop_fake.
Qed.

Lemma seeding_loop_names_witness :
  exists t, In t (generate_random_trades sample_rng 10) /\ trader t = "John Smith".
Proof.
  refine (proj1 (proj2 (proj2 (seeding_loop_names sample_rng 10))) 0 _ eq_refl).
  lia.
Defined.

(** ** The seeded store *)

Lemma seeded_nth (rng : nat -> Draw) (i : nat) :
  i < num_random_trades ->
  nth_error (TradeDB.trades (trade_db rng)) i =
  Some (random_trade (trader_name_at rng i) (rng i)).
Proof.
  intros Hi. rewrite trade_db_trades. unfold generate_random_trades.
  rewrite generate_loop_nth by exact Hi.
  cbn [orb plus]. unfold trader_name_at.
  replace (forallb (fun j => negb (coin_is_zero rng j)) (seq 0 i))
    with (negb (existsb (coin_is_zero rng) (seq 0 i))); [reflexivity |].
  induction (seq 0 i) as [| x l IHl]; [reflexivity |].
  cbn [existsb forallb]. rewrite negb_orb. now rewrite IHl.
Qed.

Lemma seeded_length (rng : nat -> Draw) :
  List.length (TradeDB.trades (trade_db rng)) = num_random_trades.
Proof. rewrite trade_db_trades. apply generate_loop_length. Qed.

Lemma seeded_ids_distinct (rng : nat -> Draw) :
  (forall i j, i < num_random_trades -> j < num_random_trades ->
     uuid4 (rng i) = uuid4 (rng j) -> i = j) ->
  NoDup (map trade_id (TradeDB.trades (trade_db rng))).
Proof.
  intros Hinj. apply NoDup_nth_error. intros i j Hi Heq.
  rewrite length_map, seeded_length in Hi.
  rewrite !nth_error_map, (seeded_nth rng i Hi) in Heq.
  destruct (Nat.lt_ge_cases j num_random_trades) as [Hj | Hj].
  - rewrite (seeded_nth rng j Hj) in Heq. cbn in Heq.
    injection Heq as Heq. now apply Hinj.
  - assert (Hnone : nth_error (TradeDB.trades (trade_db rng)) j = None)
      by (apply nth_error_None; rewrite seeded_length; exact Hj).
    rewrite Hnone in Heq. discriminate Heq.
Qed.

(** X12. When the ten generated ids are pairwise distinct, every seeded
    trade is served by the get-by-id handler under its own id. *)
Theorem seeded_trades_are_served (rng : nat -> Draw) :
  (forall i j, i < num_random_trades -> j < num_random_trades ->
     uuid4 (rng i) = uuid4 (rng j) -> i = j) ->
  forall i, i < num_random_trades ->
    get_trade_by_id (trade_db rng) (uuid4 (rng i)) =
    Ok (random_trade (trader_name_at rng i) (rng i)).
Proof.
  intros Hinj i Hi. unfold get_trade_by_id, TradeDB.get_trade_by_id.
  pose proof (seeded_nth rng i Hi) as Hnth. apply nth_error_In in Hnth.
  pose proof (get_trade_by_id_loop_unique _ _ (seeded_ids_distinct rng Hinj) Hnth) as H.
  cbn [trade_id random_trade] in H. now rewrite H.
Qed.

(** X13. The seeded store holds ten trades; each has an asset class, a
    counterparty and an instrument id taken from the three lists of
    [generate_random_trades], the instrument name [Random Instrument] and an
    id. *)
Theorem seeded_store_shape (rng : nat -> Draw) :
  List.length (TradeDB.trades (trade_db rng)) = 10 /\
  (forall t, In t (TradeDB.trades (trade_db rng)) ->
     (exists a, asset_class t = Some a /\ In a asset_classes_pool) /\
     (exists c, counterparty t = Some c /\ In c counterparties) /\
     In (instrument_id t) instruments /\
     instrument_name t = "Random Instrument" /\
     (exists u, trade_id t = Some u)).
Proof.
  split; [apply seeded_length |].
  intros t Hin. destruct (seeded_shape rng t Hin) as (name & d & ->).
  cbn [random_trade asset_class counterparty instrument_id instrument_name trade_id].
  repeat split; eauto using choice_In.
  - eexists. split; [reflexivity | apply choice_In; discriminate].
  - eexists. split; [reflexivity | apply choice_In; discriminate].
  - apply choice_In. discriminate.
Qed.

Lemma seeded_trades_are_served_witness :
  get_trade_by_id (trade_db sample_rng) (uuid4 (sample_rng 3)) =
  Ok (random_trade (trader_name_at sample_rng 3) (sample_rng 3)).
Proof.
  refine (seeded_trades_are_served sample_rng _ 3 _).
  - unfold num_random_trades. intros i j Hi Hj.
    do 10 (destruct i as [| i];
           [do 10 (destruct j as [| j];
                   [intros H; first [reflexivity | vm_compute in H; discriminate H] |]);
            lia |]).
    lia.
  - unfold num_random_trades. lia.
Defined.

(** ** More on search *)

Lemma lower_ascii_idem (c : ascii) : lower_ascii (lower_ascii c) = lower_ascii c.
Proof. destruct c as [[] [] [] [] [] [] [] []]; reflexivity. Qed.

Lemma lower_idem (s : string) : lower (lower s) = lower s.
Proof.
  induction s as [| c s IH]; [reflexivity |].
  simpl. now rewrite lower_ascii_idem, IH.
Qed.

Lemma str_in_empty (hay : string) : str_in EmptyString hay = true.
Proof. rewrite str_in_unfold. now destruct hay. Qed.

Lemma filter_all {A : Type} (f : A -> bool) (l : list A) :
  (forall x, In x l -> f x = true) -> filter f l = l.
Proof.
  induction l as [| x l IH]; intros H; [reflexivity |].
  simpl. rewrite (H x (or_introl eq_refl)). f_equal. apply IH.
  intros y Hy. apply H. now right.
Qed.

(** X14. Search with the empty text returns the whole store, in order, on
    every store, also on one that holds trades without counterparty; and the
    letter case of the text does not matter: the text in lower case gives the
    same answer, a failure included. *)
Theorem search_empty_text_and_case (db : TradeDB.t) :
  TradeDB.search_trades db EmptyString = Ok (TradeDB.trades db) /\
  (forall text,
     TradeDB.search_trades db (lower text) = TradeDB.search_trades db text).
Proof.
  split.
  - rewrite search_trades_eq.
    assert (Hf : existsb (search_faults EmptyString) (TradeDB.trades db) = false).
    { induction (TradeDB.trades db) as [| t l IH]; [reflexivity |].
      cbn [existsb]. rewrite IH, orb_false_r.
      unfold search_faults. cbn [lower]. rewrite str_in_empty.
      now destruct (counterparty t). }
    rewrite Hf. f_equal. unfold search_spec. apply filter_all.
    intros t _. unfold search_hitb. cbn [lower]. now rewrite str_in_empty.
  - intros text. unfold TradeDB.search_trades. now rewrite lower_idem.
Qed.

(** X15. On the seeded store every text that occurs, letter case aside, in
    [Random Instrument] selects all ten trades, since every seeded trade has
    that instrument name. *)
Theorem seeded_search_by_instrument_name (rng : nat -> Draw) (text : string) :
  ci_occurs text "Random Instrument" ->
  TradeDB.search_trades (trade_db rng) text = Ok (TradeDB.trades (trade_db rng)).
Proof.
  intros Hocc. unfold ci_occurs, occurs_in in Hocc. apply str_in_spec in Hocc.
  rewrite search_trades_eq, present_never_faults by apply seeded_counterparty.
  f_equal. unfold search_spec. apply filter_all.
  intros t Hin. destruct (seeded_shape rng t Hin) as (name & d & ->).
  unfold search_hitb. cbn [random_trade instrument_name].
  rewrite Hocc. now rewrite orb_true_r.
Qed.

Lemma seeded_search_witness :
  TradeDB.search_trades (trade_db sample_rng) "dom INS" =
  Ok (TradeDB.trades (trade_db sample_rng)).
Proof.
  refine (seeded_search_by_instrument_name sample_rng "dom INS" _).
  exists "ran", "trument". reflexivity.
Defined.

(** ** The default request on the seeded store *)

Lemma restrict_default (f : list Trade) : restrict Request.default f = f.
Proof. unfold restrict. cbn. apply filter_all. reflexivity. Qed.

Lemma paginate_first_page_all {A : Type} (xs : list A) (page_size : Z) :
  (Z.of_nat (List.length xs) <= page_size)%Z -> paginate xs 1 page_size = xs.
Proof.
  intros H. unfold paginate. rewrite slice_within by lia.
  cbn [Z.to_nat skipn Z.sub Z.mul Z.add Z.pos_sub Z.opp].
  apply firstn_all2. lia.
Qed.

(** X16. The request with all defaults returns, on the seeded store, all
    ten trades on one page, in ascending [trade_date_time] order and with
    trades of the same time in insertion order. *)
Theorem default_request_lists_the_store (inherited_attr : Trade -> string -> option value)
    (rng : nat -> Draw) :
  exists returned,
    list_trades inherited_attr (trade_db rng) Request.default = Ok returned /\
    Permutation (TradeDB.trades (trade_db rng)) returned /\
    List.length returned = 10 /\
    StronglySorted (fun a b => (trade_date_time a <= trade_date_time b)%Z) returned /\
    (forall v, filter (fun t => (trade_date_time t =? v)%Z) returned =
               filter (fun t => (trade_date_time t =? v)%Z)
                      (TradeDB.trades (trade_db rng))).
Proof.
  destruct (sort_by_time_asc inherited_attr (TradeDB.trades (trade_db rng)))
    as (res & Hres & Hperm & Hsorted & Hstable).
  exists res.
  assert (Hlen : List.length res = 10)
    by (rewrite <- (Permutation_length Hperm); apply seeded_length).
  assert (E : list_trades inherited_attr (trade_db rng) Request.default = Ok res).
  { unfold list_trades.
    rewrite base_set_is_filter by apply seeded_counterparty.
    cbn [Request.asset_classes Request.start Request.end_ Request.min_price
         Request.max_price Request.trade_type Request.default option_map].
    unfold TradeDB.filter_trades. rewrite filter_loop_no_params. cbn [bind].
    rewrite restrict_default.
    change (Request.sort_by Request.default) with ["trade_date_time"].
    rewrite Hres. cbn [bind]. f_equal.
    apply paginate_first_page_all. rewrite Hlen. cbn. lia. }
  repeat split; assumption.
Qed.

(** ** Requests that cannot fail on the seeded store *)

Lemma getattr_complete (inherited_attr : Trade -> string -> option value) (name : string)
    (a b : Trade) :
  is_sortable_field name = true -> complete a -> complete b ->
  exists ka kb c,
    getattr inherited_attr a name = Ok ka /\
    getattr inherited_attr b name = Ok kb /\ lt_value ka kb = Ok c.
Proof.
  unfold is_sortable_field, is_trade_field, trade_fields, complete.
  cbn [existsb]. rewrite andb_true_iff, negb_true_iff, !orb_true_iff, !String.eqb_eq.
  intros [H Hnd] (Ha1 & Ha2 & Ha3) (Hb1 & Hb2 & Hb3).
  destruct H as [-> | [-> | [-> | [-> | [-> | [-> | [-> | [-> | H]]]]]]]];
    try discriminate; cbn.
  - destruct (asset_class a), (asset_class b); try congruence;
      do 3 eexists; repeat split; reflexivity.
  - destruct (counterparty a), (counterparty b); try congruence;
      do 3 eexists; repeat split; reflexivity.
  - do 3 eexists; repeat split; reflexivity.
  - do 3 eexists; repeat split; reflexivity.
  - do 3 eexists; repeat split; reflexivity.
  - destruct (trade_id a), (trade_id b); try congruence;
      do 3 eexists; repeat split; reflexivity.
  - do 3 eexists; repeat split; reflexivity.
Qed.

Lemma sort_trades_complete (inherited_attr : Trade -> string -> option value) (keys : list string)
    (xs : list Trade) :
  Forall complete xs ->
  Forall (fun f => is_sortable_field (lstrip_dash f) = true) keys ->
  exists res, sort_trades inherited_attr keys xs = Ok res.
Proof.
  intros Hc Hk. revert xs Hc.
  induction Hk as [| f keys Hf _ IH]; intros xs Hc; [simpl; eauto |].
  cbn [sort_trades].
  destruct (sorted_defined (fun x => getattr inherited_attr x (lstrip_dash f))
              xs (startswith_dash f)) as [s Hs].
  { rewrite Forall_forall in Hc. intros x y Hx Hy.
    apply getattr_complete; auto. }
  unfold sort_step. rewrite Hs. cbn [bind]. apply IH.
  apply (Permutation_Forall (sorted_perm _ _ _ _ Hs)). exact Hc.
Qed.

Lemma seeded_complete (rng : nat -> Draw) :
  Forall complete (TradeDB.trades (trade_db rng)).
Proof.
  apply Forall_forall. intros t Hin.
  destruct (seeded_shape rng t Hin) as (name & d & ->).
  repeat split; discriminate.
Qed.

(** X17. On the seeded store a request returns whatever its filter, search,
    exclusion and page parameters are, provided [start] and [end] are absent
    or naive and every sort key names a declared field other than
    [trade_details]: the seeded trades have all their optional fields, so
    neither search nor filter nor the key comparisons can raise.  An
    offset-aware [start], or an offset-aware [end] without [start], makes
    the request fail with [TypeError] when no asset classes are asked for:
    the first seeded trade is then compared with the bound. *)
Theorem seeded_requests_return (inherited_attr : Trade -> string -> option value)
    (rng : nat -> Draw) (q : Request.t) :
  (Forall (fun f => is_sortable_field (lstrip_dash f) = true) (Request.sort_by q) ->
   not_aware (Request.start q) -> not_aware (Request.end_ q) ->
   exists returned, list_trades inherited_attr (trade_db rng) q = Ok returned) /\
  (Request.asset_classes q = None ->
   is_aware (Request.start q) = true \/
   (Request.start q = None /\ is_aware (Request.end_ q) = true) ->
   list_trades inherited_attr (trade_db rng) q = Raise TypeError).
Proof.
  split.
  - intros Hk Hs He.
    destruct (seeded_select_defined rng q Hs He) as [sel Hsel].
    destruct (select_is_filter _ _ _ Hsel) as [g Hg].
    destruct (sort_trades_complete inherited_attr (Request.sort_by q) sel) as [res Hres].
    + rewrite Hg. apply Forall_forall. intros t Hin. apply filter_In in Hin.
      pose proof (seeded_complete rng) as Hc. rewrite Forall_forall in Hc.
      apply Hc. tauto.
    + exact Hk.
    + rewrite list_trades_stages, (sorted_stage_select _ _ _ _ Hsel), Hres.
      cbn [bind]. eauto.
  - intros Hac Hb. unfold list_trades.
    rewrite base_set_is_filter by apply seeded_counterparty.
    unfold TradeDB.filter_trades. rewrite filter_loop_eq, Hac. cbn [option_map].
    pose proof (seeded_length rng) as Hlen.
    destruct (TradeDB.trades (trade_db rng)) as [| t l]; [discriminate Hlen |].
    cbn [existsb].
    assert (Hf : filter_faults None (Request.start q) (Request.end_ q) t = true).
    { unfold filter_faults, asset_class_passesb. cbn [andb].
      destruct Hb as [-> | [-> ->]]; reflexivity. }
    rewrite Hf. reflexivity.
Qed.

Lemma seeded_requests_return_witness :
  exists returned,
    list_trades sample_inherited (trade_db sample_rng)
      (Request.with_sort_by Request.default ["-asset_class"; "counterparty"])
    = Ok returned.
Proof.
  refine (proj1 (seeded_requests_return sample_inherited sample_rng
            (Request.with_sort_by Request.default ["-asset_class"; "counterparty"]))
            _ _ _).
  - repeat constructor.
  - intros d H. discriminate H.
  - intros d H. discriminate H.
Defined.
